(** * MultiStat: boiler codec, PID controller and room selection

    A shallow embedding of the Python sources

      - [rootfs/app/opentherm.py]               (module [OpenTherm])
      - [multistat/rootfs/app/pid_controller.py] (module [PID])
      - [rootfs/app/room_manager.py]            (module [Rooms])
      - [rootfs/app/ha_integration.py]          (module [HA]: the calls the
        manager-facing methods create, not their HTTP exchanges)
      - [rootfs/app/main.py]                    (module [Main]: one pass of the
        control loop)

    Conventions.  Python [int] is [Z]; the bit operators [<<], [>>], [&], [|]
    are [Z.shiftl], [Z.shiftr], [Z.land], [Z.lor].  A [bytes] object is a list
    of [Byte.byte].  Python [float] is idealised as an exact rational [Q]:
    rounding, infinities and NaN are outside the model, and "equal" on numbers
    means [Qeq].  The one statement that rounding and overflow decide, what
    [update] returns when the integral and derivative gains are zero, is made
    on module [PIDFloat], the same [pid_controller.py] over IEEE binary64
    (Rocq's primitive floats, which the kernel computes with).  A raised exception is the [Raise] branch of [result];
    [time.time()] and the serial device are inputs of the functions that
    consult them. *)

From Stdlib Require Import ZArith QArith Qabs List Lia Lqa Bool String.
From Stdlib Require Init.Byte Strings.Byte.
From Stdlib Require Floats.
Import ListNotations.

Local Open Scope Z_scope.

(** ** Python values shared by the three modules *)

Inductive exn : Type :=
| ValueError        (* bytes(): element outside range(0, 256) *)
| StructError       (* struct.pack: argument out of range *)
| IndexError        (* sequence index out of range *)
| TypeError         (* arithmetic on None *)
| ConnectionError.  (* raised by the protocol when the port is not open *)

Inductive result (A : Type) : Type :=
| Ok (a : A)
| Raise (e : exn).
Arguments Ok {A} a.
Arguments Raise {A} e.

Definition bind {A B : Type} (m : result A) (k : A -> result B) : result B :=
  match m with
  | Ok a => k a
  | Raise e => Raise e
  end.

Declare Scope py_scope.
Delimit Scope py_scope with py.
Notation "x <- m ;; k" := (bind m (fun x => k))
  (at level 100, m at next level, right associativity) : py_scope.
Local Open Scope py_scope.

Definition byte : Type := Init.Byte.byte.
Definition bytes : Type := list byte.

(** The integer a byte stands for, as produced by indexing a [bytes]. *)
Definition byte_val (b : byte) : Z := Z.of_N (Byte.to_N b).

(** [bytes(ints)]: every element must lie in [range(0, 256)]. *)
Definition byte_of_int (z : Z) : result byte :=
  if (z <? 0) then Raise ValueError
  else match Byte.of_N (Z.to_N z) with
       | Some b => Ok b
       | None => Raise ValueError
       end.

Fixpoint bytes_of_ints (l : list Z) : result bytes :=
  match l with
  | [] => Ok []
  | z :: tl =>
      b <- byte_of_int z ;;
      bs <- bytes_of_ints tl ;;
      Ok (b :: bs)
  end.

(** [data[i]] for a non-negative index. *)
Definition getitem (data : bytes) (i : nat) : result Z :=
  match nth_error data i with
  | Some b => Ok (byte_val b)
  | None => Raise IndexError
  end.

(** [data[i]] where the index is known to be in range; 0 stands for the
    [IndexError] that the surrounding length test has excluded. *)
Definition item (data : bytes) (i : nat) : Z :=
  match nth_error data i with
  | Some b => byte_val b
  | None => 0
  end.

(** [data[lo:hi]] for non-negative bounds. *)
Definition slice (data : bytes) (lo hi : nat) : bytes :=
  firstn (hi - lo) (skipn lo data).

(** [sum(data)]. *)
Definition sum_bytes (data : bytes) : Z :=
  fold_left (fun acc b => acc + byte_val b) data 0.

(** [struct.pack('>H', v)]: two bytes, most significant first. *)
Definition struct_pack_H (v : Z) : result bytes :=
  if (0 <=? v) && (v <=? 65535)
  then bytes_of_ints [Z.shiftr v 8; Z.land v 0xFF]
  else Raise StructError.

(** [int(x)] on a number: truncation towards zero. *)
Definition py_int (x : Q) : Z := Z.quot (Qnum x) (Z.pos (Qden x)).

(** Python's two-argument [max] and [min]: the first argument is kept unless
    the second is strictly greater (resp. smaller). *)
Definition Qltb (a b : Q) : bool := negb (Qle_bool b a).
Definition py_max (a b : Q) : Q := if Qltb a b then b else a.
Definition py_min (a b : Q) : Q := if Qltb b a then b else a.

(** ** opentherm.py *)

Module OpenTherm.

(* Message types *)
Definition READ_DATA : Z := 0.
Definition WRITE_DATA : Z := 1.
Definition INVALID_DATA : Z := 2.
Definition RESERVED : Z := 3.

(* Data IDs *)
Definition STATUS : Z := 0.
Definition TSET : Z := 1.
Definition TBOILER : Z := 25.

Definition _calculate_checksum (data : bytes) : Z :=
  Z.land (sum_bytes data) 0xFF.

Definition _create_message (msg_type data_id data_value : Z) : result bytes :=
  let msb := Z.lor (Z.shiftl msg_type 6) (Z.land (Z.shiftr data_id 8) 0x3F) in
  let lsb := Z.land data_id 0xFF in
  data_bytes <- struct_pack_H data_value ;;
  d0 <- getitem data_bytes 0 ;;
  let msb_data := Z.lor (Z.shiftl msb 8) d0 in
  d1 <- getitem data_bytes 1 ;;
  let lsb_data := Z.lor (Z.shiftl lsb 8) d1 in
  msg <- bytes_of_ints [0x00; msb_data; lsb_data; 0x00] ;;
  let checksum := _calculate_checksum (slice msg 1 3) in
  bytes_of_ints [0x00; msb_data; lsb_data; checksum].

Definition _parse_message (msg : bytes) : option (Z * Z * Z) :=
  if negb (List.length msg =? 4)%nat then None
  else
    let checksum := _calculate_checksum (slice msg 1 3) in
    if negb (checksum =? item msg 3) then None
    else
      let msb := item msg 1 in
      let lsb := item msg 2 in
      let msg_type := Z.land (Z.shiftr msb 6) 0x03 in
      let data_id := Z.lor (Z.shiftl (Z.land msb 0x3F) 8) lsb in
      let data_value :=
        Z.lor (Z.shiftl (Z.land msb 0x0F) 12) (Z.shiftl (Z.land lsb 0xFF) 4) in
      Some (msg_type, data_id, data_value).

(** Encode, then decode what was encoded. *)
Definition encode_then_decode (msg_type data_id data_value : Z)
  : result (option (Z * Z * Z)) :=
  msg <- _create_message msg_type data_id data_value ;;
  Ok (_parse_message msg).

(** The serial line.  [tx] logs every frame written, oldest first; [rx] holds
    the bytes the device has made available to the next reads. *)
Record Serial : Type := mkSerial {
  is_open : bool;
  tx : list bytes;
  rx : bytes
}.

Definition serial_write (msg : bytes) (s : Serial) : Serial :=
  mkSerial (is_open s) (tx s ++ [msg]) (rx s).

(** [read(n)]: at most [n] of the available bytes. *)
Definition serial_read (n : nat) (s : Serial) : bytes * Serial :=
  (firstn n (rx s), mkSerial (is_open s) (tx s) (skipn n (rx s))).

Definition serial_close (s : Serial) : Serial :=
  mkSerial false (tx s) (rx s).

Record OpenThermProtocol : Type := mkProtocol {
  serial_port : string;
  baudrate : Z;
  serial : option Serial
}.

Definition __init__ (serial_port : string) (baudrate : Z) : OpenThermProtocol :=
  mkProtocol serial_port baudrate None.

Definition set_serial (self : OpenThermProtocol) (s : Serial) : OpenThermProtocol :=
  mkProtocol (serial_port self) (baudrate self) (Some s).

(** [connect]: [dev] is what [serial.Serial(...)] does, either the bytes the
    freshly opened line will deliver or the exception it raises. *)
Definition connect (dev : result bytes) (self : OpenThermProtocol)
  : OpenThermProtocol * result unit :=
  match dev with
  | Ok incoming => (set_serial self (mkSerial true [] incoming), Ok tt)
  | Raise e => (self, Raise e)
  end.

Definition disconnect (self : OpenThermProtocol) : OpenThermProtocol :=
  match serial self with
  | Some s => if is_open s then set_serial self (serial_close s) else self
  | None => self
  end.

(** The exchange shared by the three requests: write the frame, wait, read
    up to four bytes.  The wait has no effect on the state. *)
Definition exchange (msg : bytes) (s : Serial) : bytes * Serial :=
  serial_read 4 (serial_write msg s).

(** Lines 106-113 of [set_target_temperature]: a reply counts when it is
    not empty and parses. *)
Definition reply_accepted (response : bytes) : bool :=
  match response with
  | [] => false
  | _ =>
      match _parse_message response with
      | Some _ => true
      | None => false
      end
  end.

Definition set_target_temperature (temperature : Q) (self : OpenThermProtocol)
  : OpenThermProtocol * result bool :=
  match serial self with
  | None => (self, Raise ConnectionError)
  | Some s =>
      if negb (is_open s) then (self, Raise ConnectionError)
      else
        let temp_value := Z.land (py_int (temperature * 10)) 0xFFFF in
        match _create_message WRITE_DATA TSET temp_value with
        | Raise e => (self, Raise e)
        | Ok msg =>
            let (response, s') := exchange msg s in
            (set_serial self s', Ok (reply_accepted response))
        end
  end.

(** Lines 124-134 of [get_boiler_temperature]: what is made of the reply. *)
Definition boiler_temperature_of_response (response : bytes) : option Q :=
  match response with
  | [] => None
  | _ =>
      match _parse_message response with
      | Some (msg_type, data_id, data_value) =>
          if data_id =? TBOILER
          then Some (inject_Z (Z.shiftr data_value 4) / 10)%Q
          else None
      | None => None
      end
  end.

Definition get_boiler_temperature (self : OpenThermProtocol)
  : OpenThermProtocol * result (option Q) :=
  match serial self with
  | None => (self, Raise ConnectionError)
  | Some s =>
      if negb (is_open s) then (self, Raise ConnectionError)
      else
        match _create_message READ_DATA TBOILER 0 with
        | Raise e => (self, Raise e)
        | Ok msg =>
            let (response, s') := exchange msg s in
            (set_serial self s', Ok (boiler_temperature_of_response response))
        end
  end.

Record OpenThermController : Type := mkController {
  protocol : OpenThermProtocol;
  connected : bool
}.

Definition controller_init (serial_port : string) (baudrate : Z)
  : OpenThermController :=
  mkController (__init__ serial_port baudrate) false.

(** [start] catches whatever [connect] raises. *)
Definition start (dev : result bytes) (self : OpenThermController)
  : OpenThermController :=
  match connect dev (protocol self) with
  | (p, Ok _) => mkController p true
  | (p, Raise _) => mkController p false
  end.

Definition stop (self : OpenThermController) : OpenThermController :=
  if connected self
  then mkController (disconnect (protocol self)) false
  else self.

Definition set_control_temperature (target_temp current_temp : Q)
    (self : OpenThermController) : OpenThermController * result bool :=
  if negb (connected self) then (self, Ok false)
  else
    let (p, r) := set_target_temperature target_temp (protocol self) in
    (mkController p (connected self), r).

(** The dictionary [get_status] returns, one field per key. *)
Record Status : Type := mkStatus {
  ch_enabled : bool;
  dhw_enabled : bool;
  cooling_enabled : bool;
  otc_active : bool;
  ch2_enabled : bool;
  fault : bool
}.

(** [bool(n)] on an integer. *)
Definition py_bool (n : Z) : bool := negb (n =? 0).

(** Lines 145-160 of [get_status]: what is made of the reply. *)
Definition status_of_response (response : bytes) : option Status :=
  match response with
  | [] => None
  | _ =>
      match _parse_message response with
      | Some (msg_type, data_id, data_value) =>
          if data_id =? STATUS
          then Some (mkStatus (py_bool (Z.land data_value 0x01))
                              (py_bool (Z.land data_value 0x02))
                              (py_bool (Z.land data_value 0x04))
                              (py_bool (Z.land data_value 0x08))
                              (py_bool (Z.land data_value 0x10))
                              (py_bool (Z.land data_value 0x80)))
          else None
      | None => None
      end
  end.

Definition get_status (self : OpenThermProtocol)
  : OpenThermProtocol * result (option Status) :=
  match serial self with
  | None => (self, Raise ConnectionError)
  | Some s =>
      if negb (is_open s) then (self, Raise ConnectionError)
      else
        match _create_message READ_DATA STATUS 0 with
        | Raise e => (self, Raise e)
        | Ok msg =>
            let (response, s') := exchange msg s in
            (set_serial self s', Ok (status_of_response response))
        end
  end.

(** [get_boiler_status]: the status dictionary with its added
    ['temperature'] entry is the pair of the record and the temperature. *)
Definition get_boiler_status (self : OpenThermController)
  : OpenThermController * result (option (Status * option Q)) :=
  if negb (connected self) then (self, Ok None)
  else
    match get_boiler_temperature (protocol self) with
    | (p, Raise e) => (mkController p (connected self), Raise e)
    | (p, Ok temp) =>
        match get_status p with
        | (p', Raise e) => (mkController p' (connected self), Raise e)
        | (p', Ok status) =>
            (mkController p' (connected self),
             Ok (option_map (fun st => (st, temp)) status))
        end
    end.

(** What a user of the controller can do with it. *)
Inductive link_op : Type :=
| Start (dev : result bytes)
| Stop
| SetControlTemperature (target_temp current_temp : Q)
| GetBoilerStatus.

(** The controller after one operation; what the operation returned or
    raised is dropped. *)
Definition link_step (o : link_op) (self : OpenThermController)
  : OpenThermController :=
  match o with
  | Start dev => start dev self
  | Stop => stop self
  | SetControlTemperature target_temp current_temp =>
      fst (set_control_temperature target_temp current_temp self)
  | GetBoilerStatus => fst (get_boiler_status self)
  end.

Definition link_run (ops : list link_op) (self : OpenThermController)
  : OpenThermController :=
  fold_left (fun c o => link_step o c) ops self.

(** What every controller driven through its own methods satisfies: a
    port, when there is one, has had nothing written to it, and a connected
    controller has an open port. *)
Definition link_inv (self : OpenThermController) : Prop :=
  (forall s, serial (protocol self) = Some s -> tx s = [])
  /\ (connected self = true ->
      exists s, serial (protocol self) = Some s /\ is_open s = true).

End OpenTherm.

(** ** pid_controller.py *)

Module PID.

Local Open Scope Q_scope.

Record PIDController : Type := mkPID {
  kp : Q;
  ki : Q;
  kd : Q;
  setpoint : Q;
  output_limits : Q * Q;
  _last_time : option Q;
  _last_error : option Q;
  _integral : Q
}.

Definition __init__ (kp ki kd setpoint : Q) (output_limits : Q * Q)
  : PIDController :=
  mkPID kp ki kd setpoint output_limits None None 0.

(** The constructor's default arguments. *)
Definition default : PIDController := __init__ 1 0.1 0.05 0 (0, 100).

Definition set_setpoint (sp : Q) (self : PIDController) : PIDController :=
  mkPID (kp self) (ki self) (kd self) sp (output_limits self)
        (_last_time self) (_last_error self) 0.

Definition _clamp_output (self : PIDController) (output : Q) : Q :=
  py_max (fst (output_limits self)) (py_min (snd (output_limits self)) output).

(** [update]; [current_time] is the value [time.time()] returns in the call.
    The integral is accumulated before the derivative term reads
    [_last_error], so a [TypeError] there leaves the new integral behind. *)
Definition update (current_time current_value : Q) (self : PIDController)
  : PIDController * result Q :=
  let error := setpoint self - current_value in
  match _last_time self with
  | None =>
      (mkPID (kp self) (ki self) (kd self) (setpoint self) (output_limits self)
             (Some current_time) (Some error) (_integral self),
       Ok (_clamp_output self (kp self * error)))
  | Some last_time =>
      let dt := current_time - last_time in
      if Qle_bool dt 0 then (self, Ok (_clamp_output self (kp self * error)))
      else
        let p_term := kp self * error in
        let integral := _integral self + error * dt in
        let i_term := ki self * integral in
        match _last_error self with
        | None =>
            (mkPID (kp self) (ki self) (kd self) (setpoint self)
                   (output_limits self) (_last_time self) None integral,
             Raise TypeError)
        | Some last_error =>
            let error_delta := error - last_error in
            let d_term := kd self * (error_delta / dt) in
            let output := p_term + i_term + d_term in
            (mkPID (kp self) (ki self) (kd self) (setpoint self)
                   (output_limits self) (Some current_time) (Some error)
                   integral,
             Ok (_clamp_output self output))
        end
  end.

Definition reset (self : PIDController) : PIDController :=
  mkPID (kp self) (ki self) (kd self) (setpoint self) (output_limits self)
        None None 0.

Definition set_tunings (kp' ki' kd' : Q) (self : PIDController)
  : PIDController :=
  mkPID kp' ki' kd' (setpoint self) (output_limits self)
        (_last_time self) (_last_error self) (_integral self).

(** A call made on a controller from outside. *)
Inductive call : Type :=
| CallUpdate (current_time current_value : Q)
| CallSetSetpoint (sp : Q)
| CallReset.

Definition exec1 (c : call) (self : PIDController) : PIDController :=
  match c with
  | CallUpdate t v => fst (update t v self)
  | CallSetSetpoint sp => set_setpoint sp self
  | CallReset => reset self
  end.

(** The controller after a sequence of calls, oldest first. *)
Definition exec (cs : list call) (self : PIDController) : PIDController :=
  fold_left (fun s c => exec1 c s) cs self.

(** [_last_error] is set whenever [_last_time] is: the two are written
    together by [__init__], [update] and [reset]. *)
Definition wf (self : PIDController) : Prop :=
  _last_time self <> None -> _last_error self <> None.

End PID.

(** ** pid_controller.py on IEEE binary64 *)

Module PIDFloat.

Import Floats.
Local Open Scope float_scope.

(** Python's two-argument [max] and [min] on floats: the first argument is
    kept unless the second is strictly greater (resp. smaller); a comparison
    with NaN is false. *)
Definition py_max (a b : float) : float := if a <? b then b else a.
Definition py_min (a b : float) : float := if b <? a then b else a.

Record PIDController : Type := mkPID {
  kp : float;
  ki : float;
  kd : float;
  setpoint : float;
  output_limits : float * float;
  _last_time : option float;
  _last_error : option float;
  _integral : float
}.

Definition __init__ (kp ki kd setpoint : float) (output_limits : float * float)
  : PIDController :=
  mkPID kp ki kd setpoint output_limits None None 0.

Definition set_setpoint (sp : float) (self : PIDController) : PIDController :=
  mkPID (kp self) (ki self) (kd self) sp (output_limits self)
        (_last_time self) (_last_error self) 0.

Definition _clamp_output (self : PIDController) (output : float) : float :=
  py_max (fst (output_limits self)) (py_min (snd (output_limits self)) output).

(** [update], line for line as in module [PID]; [output] is
    [(p_term + i_term) + d_term] and [dt <= 0] is false when [dt] is NaN. *)
Definition update (current_time current_value : float) (self : PIDController)
  : PIDController * result float :=
  let error := setpoint self - current_value in
  match _last_time self with
  | None =>
      (mkPID (kp self) (ki self) (kd self) (setpoint self) (output_limits self)
             (Some current_time) (Some error) (_integral self),
       Ok (_clamp_output self (kp self * error)))
  | Some last_time =>
      let dt := current_time - last_time in
      if dt <=? 0 then (self, Ok (_clamp_output self (kp self * error)))
      else
        let p_term := kp self * error in
        let integral := _integral self + error * dt in
        let i_term := ki self * integral in
        match _last_error self with
        | None =>
            (mkPID (kp self) (ki self) (kd self) (setpoint self)
                   (output_limits self) (_last_time self) None integral,
             Raise TypeError)
        | Some last_error =>
            let error_delta := error - last_error in
            let d_term := kd self * (error_delta / dt) in
            let output := p_term + i_term + d_term in
            (mkPID (kp self) (ki self) (kd self) (setpoint self)
                   (output_limits self) (Some current_time) (Some error)
                   integral,
             Ok (_clamp_output self output))
        end
  end.

Definition reset (self : PIDController) : PIDController :=
  mkPID (kp self) (ki self) (kd self) (setpoint self) (output_limits self)
        None None 0.

(** A call made on a controller from outside, and the controller after a
    sequence of calls, oldest first. *)
Inductive call : Type :=
| CallUpdate (current_time current_value : float)
| CallSetSetpoint (sp : float)
| CallReset.

Definition exec1 (c : call) (self : PIDController) : PIDController :=
  match c with
  | CallUpdate t v => fst (update t v self)
  | CallSetSetpoint sp => set_setpoint sp self
  | CallReset => reset self
  end.

Definition exec (cs : list call) (self : PIDController) : PIDController :=
  fold_left (fun s c => exec1 c s) cs self.

(** [_last_error] is set whenever [_last_time] is. *)
Definition wf (self : PIDController) : Prop :=
  _last_time self <> None -> _last_error self <> None.

(** The same float, or two zeros, which differ at most in sign and which
    Python's [==] identifies. *)
Definition same_number (x y : float) : Prop :=
  x = y \/ (is_zero x = true /\ is_zero y = true).

(** In a call that takes the [dt > 0] path, neither the accumulated integral
    nor the derivative quotient overflows or is NaN. *)
Definition no_overflow (current_time current_value : float)
    (self : PIDController) : Prop :=
  forall last_time last_error,
    _last_time self = Some last_time ->
    _last_error self = Some last_error ->
    (current_time - last_time <=? 0) = false ->
    let error := setpoint self - current_value in
    let dt := current_time - last_time in
    is_finite (_integral self + error * dt) = true
    /\ is_finite ((error - last_error) / dt) = true.

End PIDFloat.

(** ** room_manager.py *)

Module Rooms.

Local Open Scope Q_scope.

(** [pid_controller] is [None] only between the generated [__init__] and
    [__post_init__]; every constructed valve holds a controller. *)
Record HRVValve : Type := mkValve {
  valve_name : string;
  valve_entity : string;
  kp : Q;
  ki : Q;
  kd : Q;
  current_position : Q;
  pid_controller : PID.PIDController
}.

(** The dataclass constructor followed by [__post_init__]. *)
Definition new_valve (name valve_entity : string) (kp ki kd : Q) : HRVValve :=
  mkValve name valve_entity kp ki kd 0
          (PID.__init__ kp ki kd 0 (0, 100)).

Record Room : Type := mkRoom {
  name : string;
  target_temp : Q;
  current_temp_sensor : string;
  hrv_entity : string;
  hrv_valves : list HRVValve;
  current_temp : option Q
}.

Definition get_temperature_difference (self : Room) : Q :=
  match current_temp self with
  | None => 0
  | Some current => Qabs (target_temp self - current)
  end.

Definition needs_heating (self : Room) : bool :=
  match current_temp self with
  | None => false
  | Some current => Qltb current (target_temp self)
  end.

(** The configuration dictionaries; a key read with [.get] is optional. *)
Record ValveConfig : Type := mkValveConfig {
  cfg_valve_name : string;
  cfg_valve_entity : string;
  cfg_kp : option Q;
  cfg_ki : option Q;
  cfg_kd : option Q
}.

Record RoomConfig : Type := mkRoomConfig {
  cfg_name : string;
  cfg_target_temp : Q;
  cfg_current_temp_sensor : string;
  cfg_hrv_entity : option string;
  cfg_hrv_valves : option (list ValveConfig)
}.

Definition get {A : Type} (o : option A) (default : A) : A :=
  match o with
  | Some a => a
  | None => default
  end.

Definition load_valve (valve_config : ValveConfig) : HRVValve :=
  new_valve (cfg_valve_name valve_config) (cfg_valve_entity valve_config)
            (get (cfg_kp valve_config) 1)
            (get (cfg_ki valve_config) 0.1)
            (get (cfg_kd valve_config) 0.05).

Definition load_room (room_config : RoomConfig) : Room :=
  mkRoom (cfg_name room_config) (cfg_target_temp room_config)
         (cfg_current_temp_sensor room_config)
         (get (cfg_hrv_entity room_config) EmptyString)
         (map load_valve (get (cfg_hrv_valves room_config) []))
         None.

(** The manager is its list of rooms, in configuration order. *)
Definition _load_rooms (rooms_config : list RoomConfig) : list Room :=
  map load_room rooms_config.

(** [max(l, key=key)] on a list: the running best is replaced only by an
    element whose key is strictly greater. *)
Fixpoint max_from {A : Type} (key : A -> Q) (best : A) (l : list A) : A :=
  match l with
  | [] => best
  | x :: tl => max_from key (if Qltb (key best) (key x) then x else best) tl
  end.

Definition is_not_None {A : Type} (o : option A) : bool :=
  match o with
  | Some _ => true
  | None => false
  end.

Definition get_room_with_highest_difference (rooms : list Room) : option Room :=
  match rooms with
  | [] => None
  | _ =>
      let rooms_needing_heat :=
        filter (fun room => needs_heating room && is_not_None (current_temp room))
               rooms in
      match rooms_needing_heat with
      | [] => None
      | first :: rest => Some (max_from get_temperature_difference first rest)
      end
  end.

Definition set_current_temp (room : Room) (temperature : Q) : Room :=
  mkRoom (name room) (target_temp room) (current_temp_sensor room)
         (hrv_entity room) (hrv_valves room) (Some temperature).

Fixpoint update_room_temperature (room_name : string) (temperature : Q)
    (rooms : list Room) : list Room :=
  match rooms with
  | [] => []
  | room :: tl =>
      if String.eqb (name room) room_name
      then set_current_temp room temperature :: tl
      else room :: update_room_temperature room_name temperature tl
  end.

(** One iteration of the loop in [calculate_hrv_positions]; [now] is the
    clock reading taken by the controller's [update]. *)
Definition valve_step (now error : Q) (valve : HRVValve)
  : HRVValve * result unit :=
  let pid := PID.set_setpoint 0 (pid_controller valve) in
  match PID.update now (- error) pid with
  | (pid', Ok valve_position) =>
      let valve_position := py_max 0 (py_min 100 valve_position) in
      (mkValve (valve_name valve) (valve_entity valve)
               (kp valve) (ki valve) (kd valve) valve_position pid',
       Ok tt)
  | (pid', Raise e) =>
      (mkValve (valve_name valve) (valve_entity valve)
               (kp valve) (ki valve) (kd valve) (current_position valve) pid',
       Raise e)
  end.

(** The loop over the valves.  [clock n] is the [n]-th reading of
    [time.time()]; the counter of readings taken so far is threaded through.
    An exception ends the loop and leaves the later valves as they were. *)
Fixpoint valves_loop (clock : nat -> Q) (tick : nat) (error : Q)
    (valves : list HRVValve) : nat * list HRVValve * result unit :=
  match valves with
  | [] => (tick, [], Ok tt)
  | valve :: tl =>
      match valve_step (clock tick) error valve with
      | (valve', Ok _) =>
          let '(tick', tl', r) := valves_loop clock (S tick) error tl in
          (tick', valve' :: tl', r)
      | (valve', Raise e) => (S tick, valve' :: tl, Raise e)
      end
  end.

Definition set_hrv_valves (room : Room) (valves : list HRVValve) : Room :=
  mkRoom (name room) (target_temp room) (current_temp_sensor room)
         (hrv_entity room) valves (current_temp room).

Definition calculate_hrv_positions (clock : nat -> Q) (tick : nat) (room : Room)
  : nat * Room * result unit :=
  match current_temp room with
  | None => (tick, room, Ok tt)
  | Some current =>
      let error := target_temp room - current in
      let '(tick', valves, r) :=
        valves_loop clock tick error (hrv_valves room) in
      (tick', set_hrv_valves room valves, r)
  end.

Definition get_control_temperatures (rooms : list Room) : option (Q * Q) :=
  match get_room_with_highest_difference rooms with
  | Some room =>
      match current_temp room with
      | Some current => Some (target_temp room, current)
      | None => None
      end
  | None => None
  end.

(** What the polling loop does to the manager between two observations: a
    measurement arrives for a room, or the valve positions of the room at
    index [i] are recalculated.  The loop catches any exception and carries
    on with the state the exception left. *)
Inductive op : Type :=
| UpdateTemperature (room_name : string) (temperature : Q)
| CalculatePositions (i : nat).

Fixpoint calculate_at (clock : nat -> Q) (tick : nat) (i : nat)
    (rooms : list Room) : nat * list Room :=
  match rooms, i with
  | [], _ => (tick, [])
  | room :: tl, O =>
      let '(tick', room', _) := calculate_hrv_positions clock tick room in
      (tick', room' :: tl)
  | room :: tl, S i' =>
      let '(tick', tl') := calculate_at clock tick i' tl in
      (tick', room :: tl')
  end.

Definition step (clock : nat -> Q) (o : op) (st : nat * list Room)
  : nat * list Room :=
  match o with
  | UpdateTemperature room_name temperature =>
      (fst st, update_room_temperature room_name temperature (snd st))
  | CalculatePositions i => calculate_at clock (fst st) i (snd st)
  end.

Definition run (clock : nat -> Q) (ops : list op) (st : nat * list Room)
  : nat * list Room :=
  fold_left (fun st o => step clock o st) ops st.

(** The invariant on stored valve positions. *)
Definition valve_in_range (valve : HRVValve) : Prop :=
  0 <= current_position valve <= 100.

Definition positions_in_range (rooms : list Room) : Prop :=
  Forall (fun room => Forall valve_in_range (hrv_valves room)) rooms.

(** What the configuration fixes of a valve: names and gains, of the valve
    and of its controller, and the controller's bounds. *)
Definition valve_static (valve : HRVValve)
  : string * string * (Q * Q * Q) * (Q * Q * Q) * (Q * Q) :=
  (valve_name valve, valve_entity valve,
   (kp valve, ki valve, kd valve),
   (PID.kp (pid_controller valve), PID.ki (pid_controller valve),
    PID.kd (pid_controller valve)),
   PID.output_limits (pid_controller valve)).


(** A valve whose controller has its two memory fields set together. *)
Definition valve_wf (valve : HRVValve) : Prop := PID.wf (pid_controller valve).




End Rooms.

(** ** ha_integration.py: what the manager-facing methods ask for *)

Module HA.

Import Rooms.
Local Open Scope Q_scope.

(** A call made on the Home Assistant client.  Its HTTP exchange and its
    boolean outcome belong to the collaborator; the callers below discard
    the outcome. *)
Inductive request : Type :=
| SetValvePosition (entity_id : string) (position : Q)
| SetHrvMode (entity_id : string) (mode : string)
| SetThermostatTemperature (entity_id : string) (temperature : Q).

(** [_update_single_room] from the point where the sensor reading [temp]
    has arrived. *)
Definition _update_single_room (temp : option Q) (room : Room)
    (rooms : list Room) : list Room :=
  match temp with
  | Some t => update_room_temperature (name room) t rooms
  | None => rooms
  end.

(** [update_room_temperatures]: one task per room, gathered.  [done] lists
    the tasks in the order in which their readings arrive. *)
Definition update_room_temperatures (done : list (Room * option Q))
    (rooms : list Room) : list Room :=
  fold_left (fun acc task => _update_single_room (snd task) (fst task) acc)
            done rooms.

(** The reading carried by the first task of [done] made for a room called
    [room_name], if there is one. *)
Fixpoint reading_for (done : list (Room * option Q)) (room_name : string)
  : option Q :=
  match done with
  | [] => None
  | (room, temp) :: tl =>
      if String.eqb (name room) room_name then temp
      else reading_for tl room_name
  end.

(** [update_valve_positions]: the calls gathered, in creation order. *)
Definition update_valve_positions (rooms : list Room) : list request :=
  flat_map (fun room =>
              map (fun valve =>
                     SetValvePosition (valve_entity valve)
                                      (current_position valve))
                  (hrv_valves room))
           rooms.

(** Truth value of a string: non-empty. *)
Definition nonempty (s : string) : bool :=
  match s with
  | EmptyString => false
  | _ => true
  end.

(** [update_hrv_devices]: the calls gathered, in creation order. *)
Definition update_hrv_devices (rooms : list Room) : list request :=
  flat_map (fun room =>
              if nonempty (hrv_entity room)
              then [SetHrvMode (hrv_entity room)
                               (if needs_heating room then "on" else "auto")]
              else [])
           rooms.

End HA.

(** ** main.py: one pass of the control loop *)

Module Main.

Import Rooms.
Local Open Scope Q_scope.

Record MultiRoomThermostat : Type := mkApp {
  room_manager : list Room;
  opentherm : OpenTherm.OpenThermController;
  central_thermostat_entity : string
}.

(** [_update_boiler_control]: the application afterwards, and the calls made
    on the Home Assistant client unless an exception ended the method.  The
    second selection in the source only feeds the log line. *)
Definition _update_boiler_control (self : MultiRoomThermostat)
  : MultiRoomThermostat * result (list HA.request) :=
  match get_control_temperatures (room_manager self) with
  | Some (target_temp, current_temp) =>
      let after_link :=
        if OpenTherm.connected (opentherm self)
        then OpenTherm.set_control_temperature target_temp current_temp
                                               (opentherm self)
        else (opentherm self, Ok false) in
      match after_link with
      | (link, Raise e) =>
          (mkApp (room_manager self) link (central_thermostat_entity self),
           Raise e)
      | (link, Ok _) =>
          (mkApp (room_manager self) link (central_thermostat_entity self),
           Ok (if HA.nonempty (central_thermostat_entity self)
               then [HA.SetThermostatTemperature
                       (central_thermostat_entity self) target_temp]
               else []))
      end
  | None => (self, Ok [])
  end.

(** The loop of [_update_hrv_valves] over the rooms. *)
Fixpoint rooms_loop (clock : nat -> Q) (tick : nat) (rooms : list Room)
  : nat * list Room * result unit :=
  match rooms with
  | [] => (tick, [], Ok tt)
  | room :: tl =>
      match current_temp room with
      | None =>
          let '(tick', tl', r) := rooms_loop clock tick tl in
          (tick', room :: tl', r)
      | Some _ =>
          match calculate_hrv_positions clock tick room with
          | (tick1, room', Ok _) =>
              let '(tick', tl', r) := rooms_loop clock tick1 tl in
              (tick', room' :: tl', r)
          | (tick1, room', Raise e) => (tick1, room' :: tl, Raise e)
          end
      end
  end.

Definition set_room_manager (self : MultiRoomThermostat) (rooms : list Room)
  : MultiRoomThermostat :=
  mkApp rooms (opentherm self) (central_thermostat_entity self).

Definition _update_hrv_valves (clock : nat -> Q) (tick : nat)
    (self : MultiRoomThermostat)
  : nat * MultiRoomThermostat * result (list HA.request) :=
  match rooms_loop clock tick (room_manager self) with
  | (tick', rooms, Ok _) =>
      (tick', set_room_manager self rooms, Ok (HA.update_valve_positions rooms))
  | (tick', rooms, Raise e) => (tick', set_room_manager self rooms, Raise e)
  end.

Definition _update_hrv_devices (self : MultiRoomThermostat) : list HA.request :=
  HA.update_hrv_devices (room_manager self).

(** The body of the [try] in [_main_loop] after the temperatures have been
    fetched: boiler, valves, devices.  An exception ends the pass; the
    [except] clause logs it.  The result carries the calls made on the Home
    Assistant client and whether the pass was cut short. *)
Definition control_pass (clock : nat -> Q) (tick : nat)
    (self : MultiRoomThermostat)
  : nat * MultiRoomThermostat * list HA.request * option exn :=
  match _update_boiler_control self with
  | (self1, Raise e) => (tick, self1, [], Some e)
  | (self1, Ok boiler_calls) =>
      match _update_hrv_valves clock tick self1 with
      | (tick', self2, Raise e) => (tick', self2, boiler_calls, Some e)
      | (tick', self2, Ok valve_calls) =>
          (tick', self2,
           boiler_calls ++ valve_calls ++ _update_hrv_devices self2, None)
      end
  end.

End Main.

(** ** Finite ranges, for exhaustive checks over bytes and 16-bit values *)

Definition zrange (n : nat) : list Z := map Z.of_nat (seq 0 n).

(** The bit fields the decoder extracts from bytes 1 and 2, against the
    16-bit number [256 * byte1 + byte2] those bytes spell. *)
Definition fields_check (m l : Z) : bool :=
  let t := Z.land (Z.shiftr m 6) 0x03 in
  let i := Z.lor (Z.shiftl (Z.land m 0x3F) 8) l in
  let d := Z.lor (Z.shiftl (Z.land m 0x0F) 12) (Z.shiftl l 4) in
  let v := 256 * m + l in
  (t =? Z.shiftr v 14) && (i =? Z.land v 0x3FFF)
  && (d =? Z.shiftl (Z.land v 0xFFF) 4)
  && (d =? Z.shiftl (Z.land i 0xFFF) 4)
  && (t <=? 3) && (i <? 2 ^ 14)
  && (negb ((i =? 0) && (d =? v)) || (v =? 0)).

(** ** Sample data *)

Module Samples.

Local Open Scope Q_scope.

(** A started boiler link whose device holds a valid reply frame. *)
Definition connected_with_reply : OpenTherm.OpenThermController :=
  OpenTherm.start (Ok [Byte.x00; Byte.x00; Byte.x00; Byte.x00])
                  (OpenTherm.controller_init "/dev/ttyUSB0" 9600).

(** A proportional-only controller and a few calls made on it: a first
    call, a call at the same clock reading, a later call, a new setpoint. *)
Definition p_only : PID.PIDController := PID.__init__ 2 0 0 0 (0, 100).

Definition some_calls : list PID.call :=
  [PID.CallUpdate 10 (-3); PID.CallUpdate 10 (-4); PID.CallUpdate 12 (-2);
   PID.CallSetSetpoint 1].

(** The two rooms of the end-to-end scenario, and a third that ties with
    the first. *)
Definition living : Rooms.Room :=
  Rooms.mkRoom "Living" 21 "sensor.living" ""
               [Rooms.new_valve "v1" "valve.living" 1 0.1 0.05] (Some 19).

Definition bedroom : Rooms.Room :=
  Rooms.mkRoom "Bedroom" 20 "sensor.bedroom" "" [] (Some 19.5).

Definition study : Rooms.Room :=
  Rooms.mkRoom "Study" 22 "sensor.study" "" [] (Some 20).

(** A room that has not been measured yet. *)
Definition attic : Rooms.Room :=
  Rooms.mkRoom "Attic" 18 "sensor.attic" ""
               [Rooms.new_valve "v2" "valve.attic" 1 0.1 0.05] None.

(** A clock that advances one second per reading. *)
Definition seconds (n : nat) : Q := inject_Z (Z.of_nat n).


(** A valve whose controller has run before and holds a large integral. *)
Definition seasoned_valve : Rooms.HRVValve :=
  Rooms.mkValve "v" "valve.v" 1 0.5 0.25 40
                (PID.mkPID 1 0.5 0.25 0 (0, 100) (Some 1) (Some 3) 1000).

(** An application with the boiler link connected and a central thermostat
    configured, and the same application with the link never started. *)
Definition linked_app : Main.MultiRoomThermostat :=
  Main.mkApp [living; bedroom] connected_with_reply "climate.central".


End Samples.

(** Float samples: the double nearest to 1e308, a proportional-only
    controller and a few calls made on it (a first call, a call at the same
    clock reading, a later call, a new setpoint), and the controller of the
    specification's scenario. *)
Module FloatSamples.

Import Floats.
Local Open Scope float_scope.

Definition huge : float := 0x1.1ccf385ebc8ap+1023.

Definition p_only : PIDFloat.PIDController := PIDFloat.__init__ 2 0 0 0 (0, 100).

Definition some_calls : list PIDFloat.call :=
  [PIDFloat.CallUpdate 10 (-3); PIDFloat.CallUpdate 10 (-4);
   PIDFloat.CallUpdate 12 (-2); PIDFloat.CallSetSetpoint 1].

Definition unit_gain : PIDFloat.PIDController :=
  PIDFloat.__init__ 1 0 0 0 (0, 100).

End FloatSamples.

(** * Properties *)

(** ** Bytes and bit fields *)

Section Bytes.

Lemma byte_val_range (b : byte) : 0 <= byte_val b < 256.
Proof.
  unfold byte_val. pose proof (Byte.to_N_bounded b). lia.
Qed.

Lemma byte_of_int_val (b : byte) : byte_of_int (byte_val b) = Ok b.
Proof.
  unfold byte_of_int, byte_val.
  destruct (Z.ltb_spec (Z.of_N (Byte.to_N b)) 0) as [Hneg|_]; [lia|].
  now rewrite N2Z.id, Byte.of_to_N.
Qed.

Lemma byte_of_int_small (z : Z) :
  0 <= z < 256 -> exists b, byte_of_int z = Ok b /\ byte_val b = z.
Proof.
  intros Hz. unfold byte_of_int.
  destruct (Z.ltb_spec z 0) as [Hneg|_]; [lia|].
  destruct (Byte.of_N (Z.to_N z)) as [b|] eqn:E.
  - exists b. split; [reflexivity|].
    unfold byte_val. rewrite (Byte.to_of_N _ E). lia.
  - apply Byte.of_N_None_iff in E. lia.
Qed.

Lemma byte_of_int_large (z : Z) : 256 <= z -> byte_of_int z = Raise ValueError.
Proof.
  intros Hz. unfold byte_of_int.
  destruct (Z.ltb_spec z 0) as [_|_]; [reflexivity|].
  destruct (Byte.of_N (Z.to_N z)) as [b|] eqn:E; [|reflexivity].
  apply Byte.to_of_N in E. pose proof (Byte.to_N_bounded b). lia.
Qed.

Lemma land_byte (b : byte) : Z.land (byte_val b) 0xFF = byte_val b.
Proof.
  change 0xFF with (Z.ones 8). rewrite Z.land_ones by lia.
  apply Z.mod_small. pose proof (byte_val_range b). lia.
Qed.

(** [struct.pack('>H', v)] on a 16-bit value. *)
Lemma struct_pack_H_ok (v : Z) :
  0 <= v < 2 ^ 16 ->
  exists hi lo, struct_pack_H v = Ok [hi; lo]
                /\ byte_val hi = Z.shiftr v 8 /\ byte_val lo = Z.land v 0xFF.
Proof.
  intros Hv. unfold struct_pack_H.
  replace ((0 <=? v) && (v <=? 65535)) with true
    by (symmetry; apply andb_true_iff; split; apply Z.leb_le; lia).
  assert (Hhi : 0 <= Z.shiftr v 8 < 256).
  { rewrite Z.shiftr_div_pow2 by lia. split.
    - apply Z.div_pos; lia.
    - apply Z.div_lt_upper_bound; lia. }
  assert (Hlo : 0 <= Z.land v 0xFF < 256).
  { change 0xFF with (Z.ones 8). rewrite Z.land_ones by lia.
    apply Z.mod_pos_bound. lia. }
  destruct (byte_of_int_small _ Hhi) as (hi & Ehi & Vhi).
  destruct (byte_of_int_small _ Hlo) as (lo & Elo & Vlo).
  exists hi, lo. cbn [bytes_of_ints]. rewrite Ehi, Elo. cbn. auto.
Qed.

(** A value placed above bit 8 of a byte-sized operand can be read back. *)
Lemma shiftr_lor_shiftl_8 (a d : Z) :
  0 <= d < 256 -> Z.shiftr (Z.lor (Z.shiftl a 8) d) 8 = a.
Proof.
  intros Hd. rewrite Z.shiftr_lor, Z.shiftr_shiftl_l by lia.
  rewrite Z.sub_diag, Z.shiftl_0_r.
  rewrite (Z.shiftr_div_pow2 d) by lia.
  rewrite Z.div_small by lia. apply Z.lor_0_r.
Qed.

Lemma combined_byte_overflows (a d : Z) :
  0 < a -> 0 <= d < 256 -> 256 <= Z.lor (Z.shiftl a 8) d.
Proof.
  intros Ha Hd.
  destruct (Z.lt_ge_cases (Z.lor (Z.shiftl a 8) d) 256) as [Hlt|]; [|assumption].
  pose proof (shiftr_lor_shiftl_8 a d Hd) as E.
  assert (Hnn : 0 <= Z.lor (Z.shiftl a 8) d).
  { apply Z.lor_nonneg. split; [apply Z.shiftl_nonneg|]; lia. }
  rewrite Z.shiftr_div_pow2, Z.div_small in E by lia. lia.
Qed.

End Bytes.

(** ** The frame codec *)

Section Codec.

Import OpenTherm.

(** The identifier byte [msb] is zero only for a read request whose
    identifier fits in eight bits. *)
Lemma msb_zero (msg_type data_id : Z) :
  0 <= msg_type -> 0 <= data_id < 2 ^ 14 ->
  Z.lor (Z.shiftl msg_type 6) (Z.land (Z.shiftr data_id 8) 0x3F) = 0 ->
  msg_type = 0 /\ Z.land data_id 0xFF = data_id.
Proof.
  intros Ht Hid E. apply Z.lor_eq_0_iff in E. destruct E as [E1 E2]. split.
  - apply Z.shiftl_eq_0_iff in E1; lia.
  - change 0x3F with (Z.ones 6) in E2. rewrite Z.land_ones in E2 by lia.
    rewrite Z.shiftr_div_pow2 in E2 by lia.
    assert (Hq : 0 <= data_id / 2 ^ 8 < 2 ^ 6).
    { split; [apply Z.div_pos; lia | apply Z.div_lt_upper_bound; lia]. }
    rewrite Z.mod_small in E2 by exact Hq.
    change 0xFF with (Z.ones 8). rewrite Z.land_ones by lia.
    apply Z.mod_small.
    pose proof (Z.div_mod data_id (2 ^ 8) ltac:(lia)) as D.
    pose proof (Z.mod_pos_bound data_id (2 ^ 8) ltac:(lia)). lia.
Qed.

Lemma msb_nonneg (msg_type data_id : Z) :
  0 <= msg_type ->
  0 <= Z.lor (Z.shiftl msg_type 6) (Z.land (Z.shiftr data_id 8) 0x3F).
Proof.
  intros Ht. apply Z.lor_nonneg. split.
  - apply Z.shiftl_nonneg. lia.
  - apply Z.land_nonneg. right. lia.
Qed.

(** [bytes([0x00, msb_data, lsb_data, 0x00])] refuses every frame whose
    message kind or data identifier is not zero: the identifier byte is
    shifted above bit 8 before it is stored in a single byte. *)
Lemma create_message_nonzero_raises (msg_type data_id data_value : Z) :
  0 <= msg_type -> 0 <= data_id < 2 ^ 14 -> 0 <= data_value < 2 ^ 16 ->
  msg_type <> 0 \/ data_id <> 0 ->
  _create_message msg_type data_id data_value = Raise ValueError.
Proof.
  intros Ht Hid Hv Hnz. unfold _create_message.
  destruct (struct_pack_H_ok data_value Hv) as (hi & lo & E & Vhi & Vlo).
  rewrite E. cbn [bind getitem nth_error].
  pose proof (byte_val_range hi) as Rhi. pose proof (byte_val_range lo) as Rlo.
  set (msb := Z.lor (Z.shiftl msg_type 6) (Z.land (Z.shiftr data_id 8) 0x3F)).
  set (lsb := Z.land data_id 0xFF).
  assert (Hmsb : 0 <= msb) by (apply msb_nonneg; lia).
  assert (Hlsb : 0 <= lsb) by (apply Z.land_nonneg; right; lia).
  cbn [bytes_of_ints]. change (byte_of_int 0) with (Ok Byte.x00).
  cbn [bind].
  destruct (Z.eq_dec msb 0) as [Z0|NZ].
  - destruct (msb_zero msg_type data_id Ht Hid Z0) as [T0 L0].
    assert (Hpos : 0 < lsb) by (unfold lsb; rewrite L0; lia).
    rewrite Z0, Z.shiftl_0_l, Z.lor_0_l, byte_of_int_val. cbn [bind].
    rewrite (byte_of_int_large (Z.lor (Z.shiftl lsb 8) (byte_val lo)))
      by (apply combined_byte_overflows; lia).
    reflexivity.
  - rewrite (byte_of_int_large (Z.lor (Z.shiftl msb 8) (byte_val hi)))
      by (apply combined_byte_overflows; lia).
    reflexivity.
Qed.

(** The one frame the encoder does build: a read request for identifier 0. *)
Lemma create_message_status_frame (data_value : Z) :
  0 <= data_value < 2 ^ 16 ->
  exists frame,
    _create_message READ_DATA STATUS data_value = Ok frame
    /\ map byte_val frame
       = [0; Z.shiftr data_value 8; Z.land data_value 0xFF;
          Z.land (Z.shiftr data_value 8 + Z.land data_value 0xFF) 0xFF].
Proof.
  intros Hv. unfold _create_message, READ_DATA, STATUS.
  destruct (struct_pack_H_ok data_value Hv) as (hi & lo & E & Vhi & Vlo).
  rewrite E. cbn [bind getitem nth_error].
  change (Z.lor (Z.shiftl 0 6) (Z.land (Z.shiftr 0 8) 63)) with 0.
  change (Z.land 0 255) with 0.
  rewrite !Z.shiftl_0_l, !Z.lor_0_l.
  cbn [bytes_of_ints]. change (byte_of_int 0) with (Ok Byte.x00).
  rewrite !byte_of_int_val. cbn [bind].
  unfold _calculate_checksum, slice, sum_bytes. cbn [skipn firstn Nat.sub fold_left].
  rewrite Z.add_0_l.
  assert (Hc : 0 <= Z.land (byte_val hi + byte_val lo) 255 < 256).
  { change 255 with (Z.ones 8). rewrite Z.land_ones by lia.
    apply Z.mod_pos_bound. lia. }
  destruct (byte_of_int_small _ Hc) as (c & Ec & Vc).
  rewrite Ec. cbn [bind]. eexists. split; [reflexivity|].
  cbn [map]. rewrite Vc, Vhi, Vlo. reflexivity.
Qed.

(** C1 (the code departs from the specification).  The TSET write request for 21.5
    is the triple (WRITE_DATA, TSET, 215).  Encoding it does not produce a
    frame: [bytes([0x00, 16384, 471, 0x00])] raises [ValueError], so there is
    nothing to decode and no data value to recover. *)
Theorem tset_roundtrip_raises :
  Z.land (py_int (21.5 * 10)) 0xFFFF = 215
  /\ _create_message WRITE_DATA TSET 215 = Raise ValueError
  /\ encode_then_decode WRITE_DATA TSET 215 = Raise ValueError.
Proof. repeat split. Qed.

(** C2 (the code departs from the specification).  For a 2-bit message kind, a 14-bit
    identifier and a 16-bit value, [_create_message] raises [ValueError]
    unless kind and identifier are both zero; only then does it return the
    4-byte frame [0x00, high, low, (high + low) & 0xFF]. *)
Theorem create_message_total_only_at_zero (msg_type data_id data_value : Z) :
  0 <= msg_type <= 3 -> 0 <= data_id < 2 ^ 14 -> 0 <= data_value < 2 ^ 16 ->
  (msg_type <> 0 \/ data_id <> 0 ->
   _create_message msg_type data_id data_value = Raise ValueError)
  /\ (msg_type = 0 /\ data_id = 0 ->
      exists frame,
        _create_message msg_type data_id data_value = Ok frame
        /\ map byte_val frame
           = [0; Z.shiftr data_value 8; Z.land data_value 0xFF;
              Z.land (Z.shiftr data_value 8 + Z.land data_value 0xFF) 0xFF]).
Proof.
  intros Ht Hid Hv. split.
  - intros Hnz. apply create_message_nonzero_raises; lia.
  - intros [-> ->]. apply (create_message_status_frame data_value Hv).
Qed.

Lemma create_message_total_only_at_zero_witness :
  _create_message 1 1 215 = Raise ValueError.
Proof.
  apply (create_message_total_only_at_zero 1 1 215); [lia | lia | lia |].
  left. discriminate.
Defined.

Lemma checksum_of_frame (b0 b1 b2 b3 : byte) :
  _calculate_checksum (slice [b0; b1; b2; b3] 1 3)
  = Z.land (byte_val b1 + byte_val b2) 0xFF.
Proof.
  unfold _calculate_checksum, slice, sum_bytes.
  cbn [skipn firstn Nat.sub fold_left]. now rewrite Z.add_0_l.
Qed.

Lemma parse_message_frame (b0 b1 b2 b3 : byte) :
  _parse_message [b0; b1; b2; b3]
  = if byte_val b3 =? Z.land (byte_val b1 + byte_val b2) 0xFF
    then Some (Z.land (Z.shiftr (byte_val b1) 6) 0x03,
               Z.lor (Z.shiftl (Z.land (byte_val b1) 0x3F) 8) (byte_val b2),
               Z.lor (Z.shiftl (Z.land (byte_val b1) 0x0F) 12)
                     (Z.shiftl (byte_val b2) 4))
    else None.
Proof.
  unfold _parse_message. cbn [List.length Nat.eqb negb].
  rewrite checksum_of_frame. cbn [item nth_error].
  rewrite (Z.eqb_sym (Z.land _ _) (byte_val b3)).
  destruct (byte_val b3 =? _); cbn [negb]; [|reflexivity].
  now rewrite land_byte.
Qed.

Lemma parse_message_wrong_length (msg : bytes) :
  List.length msg <> 4%nat -> _parse_message msg = None.
Proof.
  intros H. unfold _parse_message.
  destruct (Nat.eqb_spec (List.length msg) 4); [contradiction | reflexivity].
Qed.

Lemma length_four (msg : bytes) :
  List.length msg = 4%nat -> exists b0 b1 b2 b3, msg = [b0; b1; b2; b3].
Proof.
  destruct msg as [|b0 [|b1 [|b2 [|b3 [|b4 tl]]]]]; try discriminate.
  intros _. now exists b0, b1, b2, b3.
Qed.

(** C4.  [_parse_message] returns [None] exactly when the frame is not four
    bytes long or byte 3 is not [(byte1 + byte2) & 0xFF]; on any other frame
    it returns kind [(byte1 >> 6) & 0x03], identifier
    [((byte1 & 0x3F) << 8) | byte2] and value
    [((byte1 & 0x0F) << 12) | (byte2 << 4)]. *)
Theorem parse_message_spec (msg : bytes) :
  (_parse_message msg = None
   <-> (List.length msg <> 4%nat
        \/ item msg 3 <> Z.land (item msg 1 + item msg 2) 0xFF))
  /\ (List.length msg = 4%nat ->
      item msg 3 = Z.land (item msg 1 + item msg 2) 0xFF ->
      _parse_message msg
      = Some (Z.land (Z.shiftr (item msg 1) 6) 0x03,
              Z.lor (Z.shiftl (Z.land (item msg 1) 0x3F) 8) (item msg 2),
              Z.lor (Z.shiftl (Z.land (item msg 1) 0x0F) 12)
                    (Z.shiftl (item msg 2) 4))).
Proof.
  destruct (Nat.eq_dec (List.length msg) 4) as [L|L].
  - destruct (length_four msg L) as (b0 & b1 & b2 & b3 & ->).
    rewrite parse_message_frame. cbn [item nth_error].
    destruct (Z.eqb_spec (byte_val b3) (Z.land (byte_val b1 + byte_val b2) 0xFF))
      as [E|E].
    + split; [|reflexivity]. split; [discriminate|].
      intros [H|H]; contradiction.
    + split; [|contradiction]. split; auto.
  - rewrite (parse_message_wrong_length msg L). split; [|contradiction].
    split; auto.
Qed.

Lemma parse_message_spec_witness :
  _parse_message [Byte.x00; Byte.x41; Byte.x19; Byte.x5a]
  = Some (1, 281, 4496).
Proof.
  apply (parse_message_spec [Byte.x00; Byte.x41; Byte.x19; Byte.x5a]);
    reflexivity.
Defined.

(** The decoded value has its four low bits clear and fits in sixteen. *)
Lemma data_value_shape (m l : byte) :
  let v := Z.lor (Z.shiftl (Z.land (byte_val m) 0x0F) 12)
                 (Z.shiftl (byte_val l) 4) in
  Z.land v 0x0F = 0 /\ 0 <= Z.shiftr v 4 <= 4095 /\ 0 <= v <= 0xFFF0.
Proof.
  intros v.
  pose proof (byte_val_range l) as Rl.
  set (a := Z.land (byte_val m) 0x0F) in *.
  assert (Ra : 0 <= a < 16).
  { unfold a. change 0x0F with (Z.ones 4). rewrite Z.land_ones by lia.
    apply Z.mod_pos_bound. lia. }
  assert (Hlow : Z.land v 0x0F = 0).
  { unfold v. rewrite Z.land_lor_distr_l.
    change 0x0F with (Z.ones 4). rewrite !Z.land_ones by lia.
    rewrite !Z.shiftl_mul_pow2 by lia.
    change (2 ^ 12) with (2 ^ 8 * 2 ^ 4).
    rewrite Z.mul_assoc, !Z.mod_mul by lia. reflexivity. }
  assert (Hhigh : Z.shiftr v 4 = Z.lor (Z.shiftl a 8) (byte_val l)).
  { unfold v. rewrite Z.shiftr_lor, !Z.shiftr_shiftl_l by lia.
    change (12 - 4) with 8. change (4 - 4) with 0.
    now rewrite Z.shiftl_0_r. }
  assert (Hnn : 0 <= Z.shiftr v 4).
  { rewrite Hhigh. apply Z.lor_nonneg. split; [apply Z.shiftl_nonneg|]; lia. }
  assert (Hup : Z.shiftr v 4 < 4096).
  { pose proof (shiftr_lor_shiftl_8 a (byte_val l) Rl) as E.
    rewrite <- Hhigh in E. rewrite Z.shiftr_div_pow2 in E by lia.
    pose proof (Z.div_mod (Z.shiftr v 4) (2 ^ 8) ltac:(lia)) as D.
    pose proof (Z.mod_pos_bound (Z.shiftr v 4) (2 ^ 8) ltac:(lia)). lia. }
  assert (Hv : v = 16 * Z.shiftr v 4).
  { change 0x0F with (Z.ones 4) in Hlow. rewrite Z.land_ones in Hlow by lia.
    rewrite Z.shiftr_div_pow2 by lia.
    pose proof (Z.div_mod v (2 ^ 4) ltac:(lia)) as D.
    change (2 ^ 4) with 16 in *. lia. }
  repeat split; try assumption; lia.
Qed.

Lemma parse_message_Some (msg : bytes) (t i v : Z) :
  _parse_message msg = Some (t, i, v) ->
  exists b0 b1 b2 b3,
    msg = [b0; b1; b2; b3]
    /\ i = Z.lor (Z.shiftl (Z.land (byte_val b1) 0x3F) 8) (byte_val b2)
    /\ v = Z.lor (Z.shiftl (Z.land (byte_val b1) 0x0F) 12)
                 (Z.shiftl (byte_val b2) 4).
Proof.
  intros H.
  destruct (Nat.eq_dec (List.length msg) 4) as [L|L].
  - destruct (length_four msg L) as (b0 & b1 & b2 & b3 & ->).
    rewrite parse_message_frame in H.
    destruct (byte_val b3 =? _); [|discriminate].
    injection H as _ <- <-. now exists b0, b1, b2, b3.
  - rewrite (parse_message_wrong_length msg L) in H. discriminate.
Qed.

(** The fixed-point temperature recovered from a 12-bit quotient. *)
Lemma recovered_temperature_range (k : Z) :
  0 <= k <= 4095 -> (0 <= inject_Z k / 10 <= 409.5)%Q.
Proof.
  intros Hk. unfold Qle, Qdiv, Qmult, Qinv, inject_Z. cbn. lia.
Qed.

(** C10.  Whenever [_parse_message] succeeds, the data value has its low
    four bits clear and lies in [0, 0xFFF0], so the recovered temperature
    [(data_value >> 4) / 10.0] lies in [0, 409.5]; the temperature that
    [get_boiler_temperature] makes of a reply, and hence any temperature it
    returns, is never negative. *)
Theorem decoded_value_range :
  (forall (msg : bytes) (t i v : Z),
      _parse_message msg = Some (t, i, v) ->
      Z.land v 0x0F = 0 /\ 0 <= v <= 0xFFF0
      /\ (0 <= inject_Z (Z.shiftr v 4) / 10 <= 409.5)%Q)
  /\ (forall (response : bytes) (temp : Q),
         boiler_temperature_of_response response = Some temp ->
         (0 <= temp <= 409.5)%Q)
  /\ (forall (self self' : OpenThermProtocol) (temp : Q),
         get_boiler_temperature self = (self', Ok (Some temp)) ->
         (0 <= temp)%Q).
Proof.
  assert (P1 : forall msg t i v,
             _parse_message msg = Some (t, i, v) ->
             Z.land v 0x0F = 0 /\ 0 <= v <= 0xFFF0
             /\ (0 <= inject_Z (Z.shiftr v 4) / 10 <= 409.5)%Q).
  { intros msg t i v H.
    destruct (parse_message_Some msg t i v H) as (b0 & b1 & b2 & b3 & _ & _ & ->).
    destruct (data_value_shape b1 b2) as (Hlow & Hq & Hv).
    repeat split; try assumption; try apply Hv;
      apply recovered_temperature_range; exact Hq. }
  assert (P2 : forall response temp,
             boiler_temperature_of_response response = Some temp ->
             (0 <= temp <= 409.5)%Q).
  { intros response temp H. unfold boiler_temperature_of_response in H.
    destruct response as [|b tl]; [discriminate|].
    destruct (_parse_message (b :: tl)) as [[[t i] v]|] eqn:E; [|discriminate].
    destruct (i =? TBOILER); [|discriminate].
    injection H as <-. apply (P1 _ _ _ _ E). }
  split; [exact P1 | split; [exact P2 |]].
  intros self self' temp H. unfold get_boiler_temperature in H.
  destruct (serial self) as [s|]; [|discriminate].
  destruct (negb (is_open s)); [discriminate|].
  destruct (_create_message READ_DATA TBOILER 0); [|discriminate].
  cbn in H. injection H as _ H. apply (P2 _ _ H).
Qed.

Lemma decoded_value_range_witness :
  boiler_temperature_of_response [Byte.x00; Byte.x00; Byte.x19; Byte.x19]
  = Some 2.5%Q
  /\ (0 <= 2.5 <= 409.5)%Q.
Proof.
  split; [reflexivity|].
  apply (proj1 (proj2 decoded_value_range)
               [Byte.x00; Byte.x00; Byte.x19; Byte.x19] 2.5%Q).
  reflexivity.
Defined.

End Codec.

(** ** The boiler link *)

Section Link.

Import OpenTherm Samples.

(** The 16-bit value sent for a temperature. *)
Lemma temp_value_range (temperature : Q) :
  0 <= Z.land (py_int (temperature * 10)) 0xFFFF < 2 ^ 16.
Proof.
  change 0xFFFF with (Z.ones 16). rewrite Z.land_ones by lia.
  apply Z.mod_pos_bound. lia.
Qed.

(** On an open port [set_target_temperature] raises before it writes. *)
Lemma set_target_temperature_open (temperature : Q)
    (self : OpenThermProtocol) (s : Serial) :
  serial self = Some s -> is_open s = true ->
  set_target_temperature temperature self = (self, Raise ValueError).
Proof.
  intros Hs Ho. unfold set_target_temperature. rewrite Hs, Ho. cbn [negb].
  rewrite create_message_nonzero_raises;
    [reflexivity | unfold WRITE_DATA; lia | unfold TSET; lia
     | apply temp_value_range | left; discriminate].
Qed.

(** [get_boiler_temperature] never gets as far as the reply either: the
    request for TBOILER cannot be encoded. *)
Lemma get_boiler_temperature_raises (self : OpenThermProtocol) :
  exists e, get_boiler_temperature self = (self, Raise e).
Proof.
  unfold get_boiler_temperature.
  destruct (serial self) as [s|]; [|now exists ConnectionError].
  destruct (is_open s); cbn [negb]; [|now exists ConnectionError].
  now exists ValueError.
Qed.

(** Had a frame been built, the exchange would be the one described: one
    frame appended to the log of writes, at most four bytes taken from the
    line, and the reply accepted iff it is a four-byte frame whose last byte
    is the checksum of bytes 1 and 2. *)
Lemma exchange_once (msg : bytes) (s : Serial) :
  let (response, s') := exchange msg s in
  tx s' = tx s ++ [msg]
  /\ response = firstn 4 (rx s) /\ rx s' = skipn 4 (rx s)
  /\ (reply_accepted response = true
      <-> exists b0 b1 b2 b3,
            response = [b0; b1; b2; b3]
            /\ byte_val b3 = Z.land (byte_val b1 + byte_val b2) 0xFF).
Proof.
  unfold exchange, serial_read, serial_write. cbn [tx rx].
  repeat split; try reflexivity.
  - unfold reply_accepted. intros H.
    destruct (firstn 4 (rx s)) as [|b tl] eqn:E; [discriminate|].
    destruct (Nat.eq_dec (List.length (b :: tl)) 4) as [L|L].
    + destruct (length_four _ L) as (b0 & b1 & b2 & b3 & E').
      rewrite E' in *. exists b0, b1, b2, b3. split; [reflexivity|].
      rewrite parse_message_frame in H.
      destruct (Z.eqb_spec (byte_val b3)
                           (Z.land (byte_val b1 + byte_val b2) 0xFF));
        [assumption | discriminate].
    + rewrite (parse_message_wrong_length _ L) in H. discriminate.
  - intros (b0 & b1 & b2 & b3 & -> & Hc). unfold reply_accepted.
    rewrite parse_message_frame.
    apply Z.eqb_eq in Hc. now rewrite Hc.
Qed.

(** C9 (the code departs from the specification).  On a connected controller whose
    port is open, [set_control_temperature] raises [ValueError] for every
    temperature and leaves the controller, port included, as it was: no frame
    is written and no reply is read or decoded, whatever the device would have
    answered.  On a controller that is not connected it returns [False]
    without touching the port. *)
Theorem set_control_temperature_outcome
    (target_temp current_temp : Q) (self : OpenThermController) :
  (connected self = false ->
   set_control_temperature target_temp current_temp self = (self, Ok false))
  /\ (forall s : Serial,
         connected self = true ->
         serial (protocol self) = Some s -> is_open s = true ->
         set_control_temperature target_temp current_temp self
         = (self, Raise ValueError)).
Proof.
  unfold set_control_temperature. split.
  - intros ->. reflexivity.
  - intros s Hc Hs Ho. rewrite Hc. cbn [negb].
    rewrite (set_target_temperature_open target_temp (protocol self) s Hs Ho).
    destruct self as [p c]. cbn in *. now subst c.
Qed.

Lemma set_control_temperature_outcome_witness :
  set_control_temperature 21.5 19 connected_with_reply
  = (connected_with_reply, Raise ValueError).
Proof.
  apply (proj2 (set_control_temperature_outcome 21.5 19 connected_with_reply)
               (mkSerial true [] [Byte.x00; Byte.x00; Byte.x00; Byte.x00]));
    reflexivity.
Defined.

End Link.

(** ** Python's [max] and [min] on numbers *)

Section MaxMin.

Local Open Scope Q_scope.

Lemma Qltb_lt (a b : Q) : Qltb a b = true <-> a < b.
Proof.
  unfold Qltb. rewrite negb_true_iff, <- not_true_iff_false, Qle_bool_iff.
  split; [apply Qnot_le_lt | apply Qlt_not_le].
Qed.

Lemma Qltb_ge (a b : Q) : Qltb a b = false <-> b <= a.
Proof.
  unfold Qltb. rewrite negb_false_iff. apply Qle_bool_iff.
Qed.

Lemma Qltb_proper (a a' b b' : Q) :
  a == a' -> b == b' -> Qltb a b = Qltb a' b'.
Proof.
  intros Ha Hb. unfold Qltb. now rewrite Ha, Hb.
Qed.

(** Clamping lands in the interval, provided the interval is not empty. *)
Lemma clamp_range (lo hi x : Q) :
  lo <= hi -> lo <= py_max lo (py_min hi x) <= hi.
Proof.
  intros Hlh. unfold py_max, py_min.
  destruct (Qltb x hi) eqn:E1.
  - apply Qltb_lt in E1. destruct (Qltb lo x) eqn:E2.
    + apply Qltb_lt in E2. split; apply Qlt_le_weak; assumption.
    + split; [apply Qle_refl | assumption].
  - destruct (Qltb lo hi) eqn:E2.
    + split; [assumption | apply Qle_refl].
    + split; [apply Qle_refl | assumption].
Qed.

(** Clamping sends equal numbers to equal numbers. *)
Lemma clamp_proper (lo hi x y : Q) :
  x == y -> py_max lo (py_min hi x) == py_max lo (py_min hi y).
Proof.
  intros Hxy. unfold py_max, py_min.
  rewrite (Qltb_proper x y hi hi Hxy (Qeq_refl hi)).
  destruct (Qltb y hi).
  - rewrite (Qltb_proper lo lo x y (Qeq_refl lo) Hxy).
    destruct (Qltb lo y); [assumption | reflexivity].
  - reflexivity.
Qed.

End MaxMin.

(** ** The PID controller *)

Section Controller.

Import PID Samples.
Local Open Scope Q_scope.

Lemma wf_init (kp ki kd setpoint : Q) (limits : Q * Q) :
  wf (__init__ kp ki kd setpoint limits).
Proof. intros H. now cbn in H. Qed.

Lemma wf_set_setpoint (sp : Q) (s : PIDController) :
  wf s -> wf (set_setpoint sp s).
Proof. intros H. exact H. Qed.

Lemma wf_reset (s : PIDController) : wf (reset s).
Proof. intros H. now cbn in H. Qed.

(** What [update] leaves alone, and what it keeps true. *)
Lemma update_frame (t m : Q) (s : PIDController) :
  let s' := fst (update t m s) in
  kp s' = kp s /\ ki s' = ki s /\ kd s' = kd s
  /\ setpoint s' = setpoint s /\ output_limits s' = output_limits s
  /\ (wf s -> wf s').
Proof.
  unfold update.
  destruct (_last_time s) as [lt|] eqn:Et.
  - destruct (Qle_bool (t - lt) 0).
    + cbn. repeat split; auto.
    + destruct (_last_error s) as [le|] eqn:Ee; cbn; repeat split; auto.
      * intros _ _. discriminate.
      * intros W. exfalso. apply W; [rewrite Et; discriminate | exact Ee].
  - cbn. repeat split; auto. intros _ _. discriminate.
Qed.

Lemma exec1_frame (c : call) (s : PIDController) :
  let s' := exec1 c s in
  kp s' = kp s /\ ki s' = ki s /\ kd s' = kd s
  /\ output_limits s' = output_limits s /\ (wf s -> wf s').
Proof.
  destruct c as [t m|sp|]; cbn [exec1].
  - pose proof (update_frame t m s) as F. cbn zeta in F. tauto.
  - cbn. repeat split; auto.
  - cbn. repeat split; auto. intros _. apply wf_reset.
Qed.

Lemma exec_frame (cs : list call) (s : PIDController) :
  let s' := exec cs s in
  kp s' = kp s /\ ki s' = ki s /\ kd s' = kd s
  /\ output_limits s' = output_limits s /\ (wf s -> wf s').
Proof.
  revert s. induction cs as [|c cs IH]; intros s.
  - cbn. repeat split; auto.
  - cbn [exec fold_left]. fold (exec cs (exec1 c s)).
    specialize (IH (exec1 c s)). cbn zeta in IH.
    pose proof (exec1_frame c s) as F. cbn zeta in F.
    destruct IH as (A1 & A2 & A3 & A4 & A5).
    destruct F as (B1 & B2 & B3 & B4 & B5).
    cbn zeta. repeat split; try congruence. auto.
Qed.

(** A well-formed controller always answers, and the answer is a clamped
    value. *)
Lemma update_returns (t m : Q) (s : PIDController) :
  wf s ->
  exists x, snd (update t m s) = Ok (_clamp_output s x).
Proof.
  intros W. unfold update.
  destruct (_last_time s) as [lt|] eqn:Et.
  - destruct (Qle_bool (t - lt) 0); [eexists; reflexivity|].
    destruct (_last_error s) as [le|] eqn:Ee; [eexists; reflexivity|].
    exfalso. apply W; [rewrite Et; discriminate | exact Ee].
  - eexists; reflexivity.
Qed.

(** In exact arithmetic, with the integral and derivative gains at zero,
    one call of [update] returns the clamped proportional term. *)
Lemma update_proportional (t m : Q) (s : PIDController) :
  wf s -> ki s == 0 -> kd s == 0 ->
  exists v, snd (update t m s) = Ok v
            /\ v == _clamp_output s (kp s * (setpoint s - m)).
Proof.
  intros W Hi Hd. unfold update.
  destruct (_last_time s) as [lt|] eqn:Et.
  - destruct (Qle_bool (t - lt) 0).
    + eexists; split; [reflexivity | apply Qeq_refl].
    + destruct (_last_error s) as [le|] eqn:Ee.
      * eexists; split; [reflexivity|]. cbn [snd].
        unfold _clamp_output. apply clamp_proper.
        rewrite Hi, Hd. unfold Qdiv. ring.
      * exfalso. apply W; [rewrite Et; discriminate | exact Ee].
  - eexists; split; [reflexivity | apply Qeq_refl].
Qed.

(** C8.  [set_setpoint] stores the new target and zeroes the integral,
    whatever it held, and leaves gains, bounds, last error and last
    timestamp as they were. *)
Theorem set_setpoint_resets_integral (sp : Q) (s : PIDController) :
  let s' := set_setpoint sp s in
  setpoint s' = sp /\ _integral s' = 0
  /\ kp s' = kp s /\ ki s' = ki s /\ kd s' = kd s
  /\ output_limits s' = output_limits s
  /\ _last_error s' = _last_error s /\ _last_time s' = _last_time s.
Proof. cbn. repeat split. Qed.

(** The scenario of the specification: [kp = 1], [ki = kd = 0], target 0,
    first call with measurement -5. *)
Example first_call_scenario :
  snd (update 1000 (-5) (__init__ 1 0 0 0 (0, 100))) = Ok 5.
Proof. reflexivity. Qed.

End Controller.

(** ** The PID controller on IEEE binary64 *)

Section ControllerFloat.

Import Floats PIDFloat FloatSamples.
Local Open Scope float_scope.

Lemma is_zero_SF (x : float) :
  is_zero x = true <-> exists s, Prim2SF x = S754_zero s.
Proof.
  unfold is_zero. rewrite eqb_spec.
  change (Prim2SF zero) with (S754_zero false).
  destruct (Prim2SF x) as [s|s| |s m e]; cbn.
  - split; eauto.
  - split; [destruct s; discriminate | intros (s' & H); discriminate].
  - split; [discriminate | intros (s' & H); discriminate].
  - split; [destruct s; discriminate | intros (s' & H); discriminate].
Qed.

Lemma is_finite_SF (x : float) :
  is_finite x = true ->
  (exists s, Prim2SF x = S754_zero s)
  \/ (exists s m e, Prim2SF x = S754_finite s m e).
Proof.
  unfold is_finite, is_nan, is_infinity. rewrite !eqb_spec, abs_spec.
  change (Prim2SF infinity) with (S754_infinity false).
  destruct (Prim2SF x) as [s|s| |s m e]; cbn.
  - eauto.
  - destruct s; discriminate.
  - discriminate.
  - eauto 6.
Qed.

Lemma mul_zero_finite (a b : float) :
  is_zero a = true -> is_finite b = true -> is_zero (a * b) = true.
Proof.
  intros Ha Hb. apply is_zero_SF in Ha. destruct Ha as (sa & Ea).
  apply is_zero_SF. rewrite mul_spec, Ea. unfold SF64mul.
  destruct (is_finite_SF b Hb) as [(s & ->)|(s & m & e & ->)]; cbn; eauto.
Qed.

Lemma same_number_refl (x : float) : same_number x x.
Proof. now left. Qed.

Lemma same_number_trans (x y z : float) :
  same_number x y -> same_number y z -> same_number x z.
Proof.
  intros [->|(Hx & Hy)] [->|(Hy' & Hz)]; unfold same_number; auto.
Qed.

Lemma add_zero_r (p z : float) : is_zero z = true -> same_number (p + z) p.
Proof.
  intros Hz. apply is_zero_SF in Hz. destruct Hz as (sz & Ez).
  pose proof (add_spec p z) as E. rewrite Ez in E. unfold SF64add in E.
  destruct (Prim2SF p) as [s|s| |s m e] eqn:Ep; cbn in E.
  - right. split; apply is_zero_SF; [|eauto].
    destruct s, sz; eauto.
  - left. apply Prim2SF_inj. congruence.
  - left. apply Prim2SF_inj. congruence.
  - left. apply Prim2SF_inj. congruence.
Qed.

Lemma ltb_zero_l (z z' b : float) :
  is_zero z = true -> is_zero z' = true -> (z <? b) = (z' <? b).
Proof.
  intros Hz Hz'. apply is_zero_SF in Hz, Hz'.
  destruct Hz as (s & E), Hz' as (s' & E').
  rewrite !ltb_spec, E, E'. now destruct (Prim2SF b).
Qed.

Lemma ltb_zero_r (a z z' : float) :
  is_zero z = true -> is_zero z' = true -> (a <? z) = (a <? z').
Proof.
  intros Hz Hz'. apply is_zero_SF in Hz, Hz'.
  destruct Hz as (s & E), Hz' as (s' & E').
  rewrite !ltb_spec, E, E'. now destruct (Prim2SF a).
Qed.

Lemma clamp_same (lo hi x y : float) :
  same_number x y ->
  same_number (py_max lo (py_min hi x)) (py_max lo (py_min hi y)).
Proof.
  intros [->|(Hx & Hy)]; [apply same_number_refl|].
  unfold py_max, py_min.
  rewrite (ltb_zero_l x y hi Hx Hy).
  destruct (y <? hi); [|apply same_number_refl].
  rewrite (ltb_zero_r lo x y Hx Hy).
  destruct (lo <? y); [now right | apply same_number_refl].
Qed.

Lemma float_update_frame (t m : float) (s : PIDController) :
  let s' := fst (update t m s) in
  kp s' = kp s /\ ki s' = ki s /\ kd s' = kd s
  /\ setpoint s' = setpoint s /\ output_limits s' = output_limits s
  /\ (wf s -> wf s').
Proof.
  unfold update.
  destruct (_last_time s) as [lt|] eqn:Et.
  - destruct (t - lt <=? 0).
    + cbn. repeat split; auto.
    + destruct (_last_error s) as [le|] eqn:Ee; cbn; repeat split; auto.
      * intros _ _. discriminate.
      * intros W. exfalso. apply W; [rewrite Et; discriminate | exact Ee].
  - cbn. repeat split; auto. intros _ _. discriminate.
Qed.

Lemma float_exec_frame (cs : list call) (s : PIDController) :
  let s' := exec cs s in
  kp s' = kp s /\ ki s' = ki s /\ kd s' = kd s
  /\ output_limits s' = output_limits s /\ (wf s -> wf s').
Proof.
  revert s. induction cs as [|c cs IH]; intros s.
  - cbn. repeat split; auto.
  - cbn [exec fold_left]. fold (exec cs (exec1 c s)).
    specialize (IH (exec1 c s)). cbn zeta in IH.
    destruct IH as (A1 & A2 & A3 & A4 & A5).
    assert (F : kp (exec1 c s) = kp s /\ ki (exec1 c s) = ki s
                /\ kd (exec1 c s) = kd s
                /\ output_limits (exec1 c s) = output_limits s
                /\ (wf s -> wf (exec1 c s))).
    { destruct c as [t m|sp|]; cbn [exec1].
      - pose proof (float_update_frame t m s) as F. cbn zeta in F. tauto.
      - cbn. repeat split; auto.
      - cbn. repeat split; auto. intros _ H. now cbn in H. }
    destruct F as (B1 & B2 & B3 & B4 & B5).
    cbn zeta. repeat split; try congruence. auto.
Qed.

(** One call, on the controller as it stands. *)
Lemma float_update_proportional (t m : float) (s : PIDController) :
  wf s -> is_zero (ki s) = true -> is_zero (kd s) = true ->
  no_overflow t m s ->
  exists v,
    snd (update t m s) = Ok v
    /\ same_number v (py_max (fst (output_limits s))
                             (py_min (snd (output_limits s))
                                     (kp s * (setpoint s - m)))).
Proof.
  intros W Hi Hd N. unfold update.
  destruct (_last_time s) as [lt|] eqn:Et.
  - destruct (t - lt <=? 0) eqn:Edt.
    + eexists. split; [reflexivity | apply same_number_refl].
    + destruct (_last_error s) as [le|] eqn:Ee.
      * destruct (N lt le Et Ee Edt) as (Fi & Fd).
        eexists. split; [reflexivity|]. cbn [snd].
        unfold _clamp_output. apply clamp_same.
        eapply same_number_trans.
        -- apply add_zero_r. now apply mul_zero_finite.
        -- apply add_zero_r. now apply mul_zero_finite.
      * exfalso. apply W; [rewrite Et; discriminate | exact Ee].
  - eexists. split; [reflexivity | apply same_number_refl].
Qed.

(** C5 (as amended).  For a controller with [ki = 0] and [kd = 0], a call
    of [update] made after any sequence of calls ([update] at any clock
    reading, [set_setpoint], [reset]) returns
    [max(lo, min(hi, kp * (setpoint - measurement)))], the same float up to
    the sign of a zero, on a first call and on a [dt <= 0] call always, and
    on a [dt > 0] call provided the accumulated integral
    [integral + error * dt] and the derivative quotient
    [(error - last_error) / dt] are finite. *)
Theorem proportional_only_unless_overflow
    (s : PIDController) (cs : list call) (t m : float) :
  wf s -> is_zero (ki s) = true -> is_zero (kd s) = true ->
  let s' := exec cs s in
  no_overflow t m s' ->
  exists v,
    snd (update t m s') = Ok v
    /\ same_number v (py_max (fst (output_limits s))
                             (py_min (snd (output_limits s))
                                     (kp s * (setpoint s' - m)))).
Proof.
  intros W Hi Hd s' N.
  pose proof (float_exec_frame cs s) as F. cbn zeta in F. fold s' in F.
  destruct F as (Fp & Fi & Fd & Fl & Fw).
  rewrite <- Fp, <- Fl.
  apply float_update_proportional; [auto | now rewrite Fi | now rewrite Fd | exact N].
Qed.

Lemma proportional_only_unless_overflow_witness :
  (exists v, snd (update 15 (-60) (exec some_calls p_only)) = Ok v
             /\ same_number v 100)
  /\ (exists v, snd (update 15 60 (exec some_calls p_only)) = Ok v
                /\ same_number v 0)
  /\ (exists v, snd (update 15 (-5) (exec some_calls p_only)) = Ok v
                /\ same_number v 12).
Proof.
  assert (W : wf p_only) by (intros H; now cbn in H).
  assert (N : forall m, is_finite (0 + (1 - m) * (15 - 12)) = true ->
                        is_finite (((1 - m) - 2) / (15 - 12)) = true ->
                        no_overflow 15 m (exec some_calls p_only)).
  { intros m H1 H2 lt le Et Ee _.
    change (Some 12 = Some lt) in Et. change (Some 2 = Some le) in Ee.
    injection Et as <-. injection Ee as <-.
    split; [exact H1 | exact H2]. }
  repeat split.
  - exact (proportional_only_unless_overflow p_only some_calls 15 (-60)
             W eq_refl eq_refl (N (-60) eq_refl eq_refl)).
  - exact (proportional_only_unless_overflow p_only some_calls 15 60
             W eq_refl eq_refl (N 60 eq_refl eq_refl)).
  - exact (proportional_only_unless_overflow p_only some_calls 15 (-5)
             W eq_refl eq_refl (N (-5) eq_refl eq_refl)).
Defined.

(** C5 as stated fails on the code.  On the controller [kp = 1],
    [ki = kd = 0], setpoint 0, bounds (0, 100): after a first call at clock
    0, the call at clock 10 with measurement 1e308 returns 100.0, because
    [error * dt] overflows to [-inf] and [0.0 * -inf] is NaN; after a first
    call at clock 0.5 with measurement -1e308, the call at clock 1 with
    measurement 1e308 returns 100.0, because [error - last_error] overflows.
    In both, [clamp(kp * (setpoint - measurement))] is 0.0. *)
Lemma proportional_only_overflow :
  let expected :=
    py_max (fst (output_limits unit_gain))
           (py_min (snd (output_limits unit_gain))
                   (kp unit_gain * (setpoint unit_gain - huge))) in
  wf unit_gain /\ is_zero (ki unit_gain) = true
  /\ is_zero (kd unit_gain) = true
  /\ expected = 0
  /\ snd (update 10 huge (exec [CallUpdate 0 0] unit_gain)) = Ok 100
  /\ snd (update 1 huge (exec [CallUpdate 0.5 (- huge)] unit_gain)) = Ok 100
  /\ ~ (exists v,
          snd (update 10 huge (exec [CallUpdate 0 0] unit_gain)) = Ok v
          /\ same_number v expected)
  /\ ~ (exists v,
          snd (update 1 huge (exec [CallUpdate 0.5 (- huge)] unit_gain)) = Ok v
          /\ same_number v expected).
Proof.
  assert (D : ~ same_number 100 0).
  { intros [H|(H & _)]; [|discriminate H].
    apply (f_equal (fun x => x <? 50)) in H. discriminate H. }
  cbn zeta. split; [intros H; now cbn in H|].
  repeat split; intros (v & E & S);
    change (Ok 100 = Ok v) in E; injection E as <-; exact (D S).
Qed.

(** The scenario of the specification on floats: [kp = 1], [ki = kd = 0],
    target 0, first call with measurement -5.0. *)
Example float_first_call_scenario :
  snd (update 1000 (-5) unit_gain) = Ok 5.
Proof. reflexivity. Qed.

End ControllerFloat.

(** ** Room selection *)

Section Selection.

Import Rooms Samples.
Local Open Scope Q_scope.

Lemma needs_heating_iff (r : Room) :
  needs_heating r = true
  <-> exists current, current_temp r = Some current /\ current < target_temp r.
Proof.
  unfold needs_heating. destruct (current_temp r) as [c|].
  - rewrite Qltb_lt. split.
    + intros H. now exists c.
    + intros (c' & E & H). now injection E as ->.
  - split; [discriminate | intros (c & E & _); discriminate].
Qed.

(** The second test of the comprehension adds nothing to the first. *)
Lemma heat_filter (r : Room) :
  needs_heating r && is_not_None (current_temp r) = needs_heating r.
Proof.
  unfold needs_heating. destruct (current_temp r); cbn;
    [apply andb_true_r | reflexivity].
Qed.

(** [max_from] returns the first element of [best :: l] whose key no other
    element exceeds. *)
Lemma max_from_split {A : Type} (key : A -> Q) (l : list A) :
  forall best,
  exists pre post,
    best :: l = pre ++ max_from key best l :: post
    /\ Forall (fun x => key x < key (max_from key best l)) pre
    /\ Forall (fun x => key x <= key (max_from key best l)) post.
Proof.
  induction l as [|x tl IH]; intros best.
  - exists [], []. cbn. auto.
  - cbn [max_from]. destruct (Qltb (key best) (key x)) eqn:E.
    + apply Qltb_lt in E.
      destruct (IH x) as (pre & post & Hs & Hpre & Hpost).
      exists (best :: pre), post. split; [cbn; now rewrite Hs|].
      split; [|exact Hpost]. constructor; [|exact Hpre].
      destruct pre as [|p pre'].
      * cbn in Hs. injection Hs as Hx _. now rewrite <- Hx.
      * cbn in Hs. injection Hs as Hx _. subst p.
        apply Qlt_trans with (key x); [exact E|].
        now inversion Hpre.
    + apply Qltb_ge in E.
      destruct (IH best) as (pre & post & Hs & Hpre & Hpost).
      remember (max_from key best tl) as m eqn:Em.
      destruct pre as [|p pre'].
      * cbn in Hs. injection Hs as Hb Ht.
        exists [], (x :: post). cbn.
        split; [congruence|]. split; [constructor|].
        constructor; [now rewrite <- Hb | exact Hpost].
      * cbn in Hs. injection Hs as Hb Ht. subst p.
        exists (best :: x :: pre'), post. cbn.
        split; [congruence|]. split; [|exact Hpost].
        inversion Hpre as [|? ? Hbest Hrest]; subst.
        constructor; [exact Hbest|]. constructor; [|exact Hrest].
        apply Qle_lt_trans with (key best); assumption.
Qed.

(** A position in a filtered list comes from one position of the list. *)
Lemma filter_split {A : Type} (f : A -> bool) (l : list A) :
  forall a x b,
    filter f l = a ++ x :: b ->
    exists a' b', l = a' ++ x :: b'
                  /\ filter f a' = a /\ filter f b' = b /\ f x = true.
Proof.
  induction l as [|y tl IH]; intros a x b H.
  - cbn in H. now destruct a.
  - cbn [filter] in H. destruct (f y) eqn:Ey.
    + destruct a as [|a0 a1].
      * cbn in H. injection H as -> Ht.
        exists [], tl. cbn. auto.
      * cbn in H. injection H as -> Ht.
        destruct (IH _ _ _ Ht) as (a' & b' & -> & Ha & Hb & Hx).
        exists (a0 :: a'), b'. cbn. rewrite Ey, Ha. auto.
    + destruct (IH _ _ _ H) as (a' & b' & -> & Ha & Hb & Hx).
      exists (y :: a'), b'. cbn. rewrite Ey. auto.
Qed.

Lemma filter_empty {A : Type} (f : A -> bool) (l : list A) :
  filter f l = [] <-> forall x, In x l -> f x = false.
Proof.
  induction l as [|y tl IH]; cbn.
  - split; [intros _ x [] | reflexivity].
  - destruct (f y) eqn:Ey.
    + split; [discriminate|]. intros H. specialize (H y (or_introl eq_refl)).
      congruence.
    + rewrite IH. split.
      * intros H x [<-|Hx]; auto.
      * intros H x Hx. apply H. now right.
Qed.

Lemma selection_none (rooms : list Room) :
  get_room_with_highest_difference rooms = None
  <-> forall r, In r rooms -> needs_heating r = false.
Proof.
  unfold get_room_with_highest_difference.
  destruct rooms as [|r0 tl]; [split; [intros _ r [] | reflexivity]|].
  set (l := r0 :: tl).
  destruct (filter _ l) as [|first rest] eqn:E.
  - split; [|reflexivity]. intros _ r Hr.
    rewrite <- heat_filter. revert r Hr. now apply filter_empty.
  - split; [discriminate|]. intros H.
    assert (E' : filter (fun room => needs_heating room
                                     && is_not_None (current_temp room)) l = []).
    { apply filter_empty. intros r Hr. rewrite heat_filter. now apply H. }
    congruence.
Qed.

Lemma selection_some (rooms : list Room) (r : Room) :
  get_room_with_highest_difference rooms = Some r ->
  exists before after,
    rooms = before ++ r :: after
    /\ needs_heating r = true
    /\ (forall r', In r' before -> needs_heating r' = true ->
                   get_temperature_difference r' < get_temperature_difference r)
    /\ (forall r', In r' after -> needs_heating r' = true ->
                   get_temperature_difference r' <= get_temperature_difference r).
Proof.
  unfold get_room_with_highest_difference.
  destruct rooms as [|r0 tl]; [discriminate|].
  set (l := r0 :: tl).
  set (f := fun room => needs_heating room && is_not_None (current_temp room)).
  destruct (filter f l) as [|first rest] eqn:E; [discriminate|].
  intros H. injection H as H.
  destruct (max_from_split get_temperature_difference rest first)
    as (pre & post & Hs & Hpre & Hpost).
  rewrite H in Hs, Hpre, Hpost. rewrite Hs in E.
  destruct (filter_split f l pre r post E) as (a & b & Hl & Ha & Hb & Hr).
  exists a, b. split; [exact Hl|].
  unfold f in Hr. rewrite heat_filter in Hr. split; [exact Hr|].
  rewrite Forall_forall in Hpre, Hpost.
  split; intros r' Hin Hheat.
  - apply Hpre. rewrite <- Ha. apply filter_In. split; [exact Hin|].
    unfold f. now rewrite heat_filter.
  - apply Hpost. rewrite <- Hb. apply filter_In. split; [exact Hin|].
    unfold f. now rewrite heat_filter.
Qed.

(** C3.  A room needs heating iff its current temperature is present and
    strictly below its target, and its difference is then
    [|target - current|].  The selection returns none iff no room needs
    heating; otherwise it returns a room that needs heating, placed so that
    every room needing heating before it in configured order has a strictly
    smaller difference and every one after it has a difference no larger.
    [get_control_temperatures] returns the selected room's (target, current)
    pair, and none when the selection yields none. *)
Theorem selection_spec (rooms : list Room) :
  (forall r,
      needs_heating r = true
      <-> exists current,
            current_temp r = Some current /\ current < target_temp r)
  /\ (forall r current,
         current_temp r = Some current ->
         get_temperature_difference r = Qabs (target_temp r - current))
  /\ (get_room_with_highest_difference rooms = None
      <-> forall r, In r rooms -> needs_heating r = false)
  /\ (forall r,
         get_room_with_highest_difference rooms = Some r ->
         exists before after,
           rooms = before ++ r :: after
           /\ needs_heating r = true
           /\ (forall r', In r' before -> needs_heating r' = true ->
                 get_temperature_difference r' < get_temperature_difference r)
           /\ (forall r', In r' after -> needs_heating r' = true ->
                 get_temperature_difference r' <= get_temperature_difference r))
  /\ (forall r,
         get_room_with_highest_difference rooms = Some r ->
         exists current,
           current_temp r = Some current
           /\ get_control_temperatures rooms = Some (target_temp r, current))
  /\ (get_room_with_highest_difference rooms = None ->
      get_control_temperatures rooms = None).
Proof.
  split; [exact needs_heating_iff|].
  split; [intros r current E; unfold get_temperature_difference; now rewrite E|].
  split; [apply selection_none|].
  split; [apply selection_some|].
  split.
  - intros r H.
    destruct (selection_some rooms r H) as (_ & _ & _ & Hheat & _).
    apply needs_heating_iff in Hheat. destruct Hheat as (c & E & _).
    exists c. split; [exact E|].
    unfold get_control_temperatures. now rewrite H, E.
  - intros H. unfold get_control_temperatures. now rewrite H.
Qed.

Lemma selection_spec_witness :
  exists current,
    current_temp living = Some current
    /\ get_control_temperatures [living; bedroom]
       = Some (target_temp living, current).
Proof.
  apply (proj1 (proj2 (proj2 (proj2 (proj2 (selection_spec [living; bedroom])))))).
  reflexivity.
Defined.

(** The scenarios of the specification: distinct differences, a tie, and
    no room below its target. *)
Example selection_scenarios :
  get_room_with_highest_difference [bedroom; living] = Some living
  /\ get_control_temperatures [bedroom; living] = Some (21, 19)
  /\ get_room_with_highest_difference [bedroom; study; living] = Some study
  /\ get_room_with_highest_difference [bedroom; living; study] = Some living
  /\ get_room_with_highest_difference
       [set_current_temp living 21; set_current_temp bedroom 22; attic] = None.
Proof. repeat split. Qed.

(** C7.  A room whose current temperature is absent is never the selected
    room, and [calculate_hrv_positions] on it returns at once: the room, with
    every valve's position and controller, is unchanged and the clock has not
    been read. *)
Theorem absent_temperature_is_skipped :
  (forall rooms r,
      current_temp r = None -> get_room_with_highest_difference rooms <> Some r)
  /\ (forall clock tick room,
         current_temp room = None ->
         calculate_hrv_positions clock tick room = (tick, room, Ok tt)).
Proof.
  split.
  - intros rooms r E H.
    destruct (selection_some rooms r H) as (_ & _ & _ & Hheat & _).
    unfold needs_heating in Hheat. rewrite E in Hheat. discriminate.
  - intros clock tick room E. unfold calculate_hrv_positions. now rewrite E.
Qed.

Lemma absent_temperature_is_skipped_witness :
  get_room_with_highest_difference [living; attic] <> Some attic
  /\ calculate_hrv_positions seconds 0 attic = (0%nat, attic, Ok tt).
Proof.
  split.
  - apply (proj1 absent_temperature_is_skipped). reflexivity.
  - apply (proj2 absent_temperature_is_skipped). reflexivity.
Defined.

End Selection.

(** ** Bounds on controller output and valve positions *)

Section Bounds.

Import Rooms Samples.
Local Open Scope Q_scope.

Lemma percent_interval : 0 <= 100.
Proof. discriminate. Qed.

Lemma new_valve_in_range (name valve_entity : string) (kp ki kd : Q) :
  valve_in_range (new_valve name valve_entity kp ki kd).
Proof. split; cbn; [apply Qle_refl | apply percent_interval]. Qed.

Lemma load_rooms_in_range (rooms_config : list RoomConfig) :
  positions_in_range (_load_rooms rooms_config).
Proof.
  unfold positions_in_range, _load_rooms.
  apply Forall_forall. intros room Hroom.
  apply in_map_iff in Hroom. destruct Hroom as (rc & <- & _).
  cbn [load_room hrv_valves]. apply Forall_forall. intros valve Hvalve.
  apply in_map_iff in Hvalve. destruct Hvalve as (vc & <- & _).
  apply new_valve_in_range.
Qed.

(** One iteration stores a clamped position, or none at all. *)
Lemma valve_step_in_range (now error : Q) (valve : HRVValve) :
  valve_in_range valve -> valve_in_range (fst (valve_step now error valve)).
Proof.
  intros H. unfold valve_step.
  destruct (PID.update now (- error) _) as [pid' [position|e]]; cbn [fst].
  - unfold valve_in_range. cbn [current_position].
    apply clamp_range, percent_interval.
  - exact H.
Qed.

Lemma valves_loop_in_range (clock : nat -> Q) (error : Q)
    (valves : list HRVValve) :
  forall tick,
    Forall valve_in_range valves ->
    Forall valve_in_range (snd (fst (valves_loop clock tick error valves))).
Proof.
  induction valves as [|valve tl IH]; intros tick H.
  - constructor.
  - inversion H as [|? ? Hv Htl]; subst. cbn [valves_loop].
    pose proof (valve_step_in_range (clock tick) error valve Hv) as Hstep.
    destruct (valve_step (clock tick) error valve) as [valve' [u|e]].
    + specialize (IH (S tick) Htl).
      destruct (valves_loop clock (S tick) error tl) as [[tick' tl'] r].
      cbn [fst snd] in *. now constructor.
    + cbn [fst snd] in *. now constructor.
Qed.

Lemma calculate_hrv_positions_in_range
    (clock : nat -> Q) (tick : nat) (room : Room) :
  Forall valve_in_range (hrv_valves room) ->
  Forall valve_in_range
         (hrv_valves (snd (fst (calculate_hrv_positions clock tick room)))).
Proof.
  intros H. unfold calculate_hrv_positions.
  destruct (current_temp room) as [current|]; [|exact H].
  pose proof (valves_loop_in_range clock (target_temp room - current)
                                   (hrv_valves room) tick H) as L.
  destruct (valves_loop clock tick _ (hrv_valves room)) as [[tick' valves] r].
  exact L.
Qed.

Lemma calculate_at_in_range (clock : nat -> Q) (rooms : list Room) :
  forall tick i,
    positions_in_range rooms ->
    positions_in_range (snd (calculate_at clock tick i rooms)).
Proof.
  unfold positions_in_range.
  induction rooms as [|room tl IH]; intros tick i H.
  - destruct i; constructor.
  - inversion H as [|? ? Hroom Htl]; subst. destruct i as [|i'].
    + cbn [calculate_at].
      pose proof (calculate_hrv_positions_in_range clock tick room Hroom) as C.
      destruct (calculate_hrv_positions clock tick room) as [[tick' room'] r].
      cbn [fst snd] in *. now constructor.
    + cbn [calculate_at]. specialize (IH tick i' Htl).
      destruct (calculate_at clock tick i' tl) as [tick' tl'].
      cbn [snd] in *. now constructor.
Qed.

Lemma update_room_temperature_in_range
    (room_name : string) (temperature : Q) (rooms : list Room) :
  positions_in_range rooms ->
  positions_in_range (update_room_temperature room_name temperature rooms).
Proof.
  unfold positions_in_range.
  induction rooms as [|room tl IH]; intros H; [constructor|].
  inversion H as [|? ? Hroom Htl]; subst. cbn [update_room_temperature].
  destruct (String.eqb (name room) room_name); constructor; auto.
Qed.

Lemma run_in_range (clock : nat -> Q) (ops : list op) :
  forall st,
    positions_in_range (snd st) ->
    positions_in_range (snd (run clock ops st)).
Proof.
  induction ops as [|o ops IH]; intros st H; [exact H|].
  cbn [run fold_left]. apply IH.
  destruct o as [room_name temperature|i]; cbn [step snd].
  - now apply update_room_temperature_in_range.
  - now apply calculate_at_in_range.
Qed.

(** C6.  Provided the configured bounds form an interval ([lo <= hi]; the
    default is [0, 100]), whatever [update] returns lies within them, and a
    well-formed controller does return.  Every valve of a freshly loaded
    manager stores a position in [0, 100], and so does every valve after any
    sequence of temperature updates and valve-position calculations. *)
Theorem outputs_within_bounds :
  (forall (s : PID.PIDController) (t m : Q),
      fst (PID.output_limits s) <= snd (PID.output_limits s) ->
      (PID.wf s -> exists v, snd (PID.update t m s) = Ok v)
      /\ (forall v, snd (PID.update t m s) = Ok v ->
                    fst (PID.output_limits s) <= v <= snd (PID.output_limits s)))
  /\ (forall rooms_config, positions_in_range (_load_rooms rooms_config))
  /\ (forall clock ops tick rooms,
         positions_in_range rooms ->
         positions_in_range (snd (run clock ops (tick, rooms)))).
Proof.
  split; [|split].
  - intros s t m Hlim. split.
    + intros W. destruct (update_returns t m s W) as (x & E). eauto.
    + intros v E. unfold PID.update in E.
      destruct (PID._last_time s) as [lt|].
      * destruct (Qle_bool (t - lt) 0).
        -- injection E as <-. now apply clamp_range.
        -- destruct (PID._last_error s); [|discriminate].
           injection E as <-. now apply clamp_range.
      * injection E as <-. now apply clamp_range.
  - apply load_rooms_in_range.
  - intros clock ops tick rooms H. now apply (run_in_range clock ops (tick, rooms)).
Qed.

Lemma outputs_within_bounds_witness :
  (exists v, snd (PID.update 15 (-5) p_only) = Ok v /\ 0 <= v <= 100)
  /\ positions_in_range
       (snd (run seconds
                 [UpdateTemperature "Attic" 10; CalculatePositions 1;
                  CalculatePositions 0; CalculatePositions 1]
                 (0%nat, [living; attic]))).
Proof.
  destruct outputs_within_bounds as (Hupdate & _ & Hrun). split.
  - destruct (Hupdate p_only 15 (-5) percent_interval) as (Hret & Hin).
    destruct (Hret (wf_init 2 0 0 0 (0, 100))) as (v & Ev).
    exists v. split; [exact Ev | exact (Hin v Ev)].
  - apply Hrun. unfold positions_in_range.
    repeat constructor; discriminate.
Defined.

(** The controllers of a manager's valves stay well formed, so the loop of
    [calculate_hrv_positions] runs to its end, one clock reading per valve. *)
Lemma valve_step_returns (now error : Q) (valve : HRVValve) :
  valve_wf valve ->
  snd (valve_step now error valve) = Ok tt
  /\ valve_wf (fst (valve_step now error valve)).
Proof.
  unfold valve_wf. intros W. unfold valve_step.
  set (pid := PID.set_setpoint 0 (pid_controller valve)).
  assert (Wp : PID.wf pid) by (apply wf_set_setpoint; exact W).
  destruct (update_returns now (- error) pid Wp) as (x & E).
  pose proof (update_frame now (- error) pid) as F. cbn zeta in F.
  destruct F as (_ & _ & _ & _ & _ & Fw).
  destruct (PID.update now (- error) pid) as [pid' r].
  cbn [fst snd] in *. subst r. cbn. auto.
Qed.

Lemma valves_loop_returns (clock : nat -> Q) (error : Q)
    (valves : list HRVValve) :
  forall tick,
    Forall valve_wf valves ->
    exists valves',
      valves_loop clock tick error valves
      = ((tick + List.length valves)%nat, valves', Ok tt)
      /\ Forall valve_wf valves'.
Proof.
  induction valves as [|valve tl IH]; intros tick H.
  - exists []. cbn. rewrite Nat.add_0_r. auto.
  - inversion H as [|? ? Hv Htl]; subst. cbn [valves_loop].
    destruct (valve_step_returns (clock tick) error valve Hv) as (Er & Wv).
    destruct (valve_step (clock tick) error valve) as [valve' r].
    cbn [fst snd] in *. subst r.
    destruct (IH (S tick) Htl) as (tl' & E & Wtl). rewrite E.
    exists (valve' :: tl'). cbn [List.length].
    rewrite Nat.add_succ_r. split; [reflexivity | now constructor].
Qed.


End Bounds.

(** * Further properties of the code *)

(** ** Exhaustive checks *)

Section Finite.

Lemma zrange_In (n : nat) (z : Z) : 0 <= z < Z.of_nat n -> In z (zrange n).
Proof.
  intros Hz. unfold zrange. apply in_map_iff.
  exists (Z.to_nat z). split; [lia|]. apply in_seq. lia.
Qed.

Lemma forallb_zrange (P : Z -> bool) (n : nat) :
  forallb P (zrange n) = true ->
  forall z, 0 <= z < Z.of_nat n -> P z = true.
Proof.
  intros H z Hz. rewrite forallb_forall in H. apply H, zrange_In, Hz.
Qed.

(** A boolean check that holds on all pairs of byte values holds on all
    pairs of bytes. *)
Lemma forall_byte_pairs (P : Z -> Z -> bool) :
  forallb (fun x => forallb (P x) (zrange 256)) (zrange 256) = true ->
  forall b1 b2 : byte, P (byte_val b1) (byte_val b2) = true.
Proof.
  intros H b1 b2.
  pose proof (byte_val_range b1) as R1. pose proof (byte_val_range b2) as R2.
  apply (forallb_zrange (P (byte_val b1)) 256); [|exact R2].
  apply (forallb_zrange (fun x => forallb (P x) (zrange 256)) 256 H).
  exact R1.
Qed.

Lemma byte_val_inj (a b : byte) : byte_val a = byte_val b -> a = b.
Proof.
  unfold byte_val. intros H. apply N2Z.inj in H.
  pose proof (Byte.of_to_N a) as Ea. pose proof (Byte.of_to_N b) as Eb.
  rewrite H in Ea. congruence.
Qed.

Lemma byte_of_int_Ok (z : Z) (b : byte) :
  byte_of_int z = Ok b -> byte_val b = z.
Proof.
  unfold byte_of_int. destruct (Z.ltb_spec z 0) as [|Hz]; [discriminate|].
  destruct (Byte.of_N (Z.to_N z)) as [b'|] eqn:E; [|discriminate].
  intros H. injection H as <-. unfold byte_val.
  rewrite (Byte.to_of_N _ E). lia.
Qed.

Lemma bytes_of_ints_four (z0 z1 z2 z3 : Z) (frame : bytes) :
  bytes_of_ints [z0; z1; z2; z3] = Ok frame ->
  exists b0 b1 b2 b3,
    frame = [b0; b1; b2; b3]
    /\ byte_val b0 = z0 /\ byte_val b1 = z1
    /\ byte_val b2 = z2 /\ byte_val b3 = z3.
Proof.
  cbn [bytes_of_ints].
  destruct (byte_of_int z0) as [b0|] eqn:E0; [|discriminate].
  destruct (byte_of_int z1) as [b1|] eqn:E1; [|discriminate].
  destruct (byte_of_int z2) as [b2|] eqn:E2; [|discriminate].
  destruct (byte_of_int z3) as [b3|] eqn:E3; [|discriminate].
  cbn. intros H. injection H as <-.
  exists b0, b1, b2, b3.
  repeat split; now apply byte_of_int_Ok.
Qed.

End Finite.

(** ** More on the frame codec *)

Section CodecMore.

Import OpenTherm.

(** X1.  Whatever frame the encoder returns, the decoder accepts: the checksum
    written is the checksum recomputed.  No bound on the arguments is
    needed. *)
Theorem created_frame_parses (msg_type data_id data_value : Z) (frame : bytes) :
  _create_message msg_type data_id data_value = Ok frame ->
  List.length frame = 4%nat
  /\ item frame 0 = 0
  /\ exists fields, _parse_message frame = Some fields.
Proof.
  unfold _create_message.
  destruct (struct_pack_H data_value) as [data_bytes|]; [|discriminate].
  cbn [bind].
  destruct (getitem data_bytes 0) as [d0|]; [|discriminate]. cbn [bind].
  destruct (getitem data_bytes 1) as [d1|]; [|discriminate]. cbn [bind].
  set (msb_data := Z.lor (Z.shiftl _ 8) d0).
  set (lsb_data := Z.lor (Z.shiftl _ 8) d1).
  destruct (bytes_of_ints [0; msb_data; lsb_data; 0]) as [msg|] eqn:E;
    [|discriminate].
  cbn [bind]. intros H.
  destruct (bytes_of_ints_four _ _ _ _ _ E)
    as (a0 & a1 & a2 & a3 & -> & _ & A1 & A2 & _).
  rewrite checksum_of_frame in H.
  destruct (bytes_of_ints_four _ _ _ _ _ H)
    as (b0 & b1 & b2 & b3 & -> & B0 & B1 & B2 & B3).
  split; [reflexivity|]. split; [exact B0|].
  rewrite parse_message_frame.
  rewrite B1, B2, B3, A1, A2, Z.eqb_refl. eauto.
Qed.

Lemma created_frame_parses_witness :
  exists fields,
    _parse_message [Byte.x00; Byte.xab; Byte.xcd; Byte.x78] = Some fields.
Proof.
  apply (created_frame_parses READ_DATA STATUS 0xABCD
                              [Byte.x00; Byte.xab; Byte.xcd; Byte.x78]).
  reflexivity.
Defined.

Lemma fields_check_bytes (b1 b2 : byte) :
  fields_check (byte_val b1) (byte_val b2) = true.
Proof. apply forall_byte_pairs. vm_compute. reflexivity. Qed.

Lemma decoded_fields (b1 b2 : byte) :
  let m := byte_val b1 in
  let l := byte_val b2 in
  let t := Z.land (Z.shiftr m 6) 0x03 in
  let i := Z.lor (Z.shiftl (Z.land m 0x3F) 8) l in
  let d := Z.lor (Z.shiftl (Z.land m 0x0F) 12) (Z.shiftl l 4) in
  let v := 256 * m + l in
  t = Z.shiftr v 14 /\ i = Z.land v 0x3FFF
  /\ d = Z.shiftl (Z.land v 0xFFF) 4
  /\ d = Z.shiftl (Z.land i 0xFFF) 4
  /\ t <= 3 /\ i < 2 ^ 14
  /\ (i = 0 -> d = v -> v = 0).
Proof.
  intros m l t i d v.
  pose proof (fields_check_bytes b1 b2) as C. unfold fields_check in C.
  fold m l in C. fold t i d v in C.
  repeat (apply andb_true_iff in C; destruct C as [C ?]).
  repeat match goal with
         | H : (_ =? _) = true |- _ => apply Z.eqb_eq in H
         | H : (_ <=? _) = true |- _ => apply Z.leb_le in H
         | H : (_ <? _) = true |- _ => apply Z.ltb_lt in H
         end.
  repeat split; try assumption.
  intros Hi Hd.
  match goal with
  | H : (negb _ || _) = true |- _ =>
      apply orb_true_iff in H; destruct H as [H|H]
  end.
  - apply negb_true_iff, andb_false_iff in H.
    destruct H as [H|H]; apply Z.eqb_neq in H; contradiction.
  - now apply Z.eqb_eq in H.
Qed.

(** A 16-bit number is spelled by its two bytes. *)
Lemma split_16 (v : Z) : v = 256 * Z.shiftr v 8 + Z.land v 0xFF.
Proof.
  change 0xFF with (Z.ones 8). rewrite Z.land_ones, Z.shiftr_div_pow2 by lia.
  change (2 ^ 8) with 256. apply Z.div_mod. lia.
Qed.

(** X2.  The only requests the encoder accepts are read requests for identifier
    0.  Encoding one with the 16-bit value [v] and decoding the frame gives
    kind [v >> 14], identifier [v & 0x3FFF] and value [(v & 0xFFF) << 4]:
    the value travels in the kind and identifier fields, and the triple
    that was encoded comes back only for [v = 0]. *)
Theorem status_roundtrip (v : Z) :
  0 <= v < 2 ^ 16 ->
  encode_then_decode READ_DATA STATUS v
  = Ok (Some (Z.shiftr v 14, Z.land v 0x3FFF, Z.shiftl (Z.land v 0xFFF) 4))
  /\ (encode_then_decode READ_DATA STATUS v = Ok (Some (READ_DATA, STATUS, v))
      <-> v = 0).
Proof.
  intros Hv.
  destruct (create_message_status_frame v Hv) as (frame & E & M).
  destruct frame as [|b0 [|b1 [|b2 [|b3 [|b4 tl]]]]]; try discriminate M.
  cbn [map] in M. injection M as M0 M1 M2 M3.
  unfold encode_then_decode. rewrite E. cbn [bind].
  rewrite parse_message_frame, M1, M2, M3, Z.eqb_refl.
  rewrite <- M1, <- M2.
  destruct (decoded_fields b1 b2) as (Ht & Hi & Hd & _ & _ & _ & Hz).
  rewrite M1, M2, <- (split_16 v) in Ht, Hi, Hd, Hz.
  rewrite M1, M2 in *.
  set (t := Z.land (Z.shiftr (Z.shiftr v 8) 6) 3) in *.
  set (i := Z.lor (Z.shiftl (Z.land (Z.shiftr v 8) 63) 8) (Z.land v 255)) in *.
  set (d := Z.lor (Z.shiftl (Z.land (Z.shiftr v 8) 15) 12)
                  (Z.shiftl (Z.land v 255) 4)) in *.
  split; [now rewrite <- Ht, <- Hi, <- Hd|].
  split.
  - intros H. injection H as _ H2 H3. apply Hz; assumption.
  - intros V0. subst v. reflexivity.
Qed.

Lemma status_roundtrip_witness :
  encode_then_decode READ_DATA STATUS 215 = Ok (Some (0, 215, 3440)).
Proof.
  apply (status_roundtrip 215). lia.
Defined.

Lemma parse_message_fields (msg : bytes) (t i v : Z) :
  _parse_message msg = Some (t, i, v) ->
  exists b0 b1 b2 b3,
    msg = [b0; b1; b2; b3]
    /\ byte_val b3 = Z.land (byte_val b1 + byte_val b2) 0xFF
    /\ t = Z.land (Z.shiftr (byte_val b1) 6) 0x03
    /\ i = Z.lor (Z.shiftl (Z.land (byte_val b1) 0x3F) 8) (byte_val b2)
    /\ v = Z.lor (Z.shiftl (Z.land (byte_val b1) 0x0F) 12)
                 (Z.shiftl (byte_val b2) 4).
Proof.
  intros H.
  destruct (Nat.eq_dec (List.length msg) 4) as [L|L].
  - destruct (length_four msg L) as (b0 & b1 & b2 & b3 & ->).
    rewrite parse_message_frame in H.
    destruct (Z.eqb_spec (byte_val b3) (Z.land (byte_val b1 + byte_val b2) 0xFF))
      as [C|C]; [|discriminate].
    injection H as <- <- <-. now exists b0, b1, b2, b3.
  - rewrite (parse_message_wrong_length msg L) in H. discriminate.
Qed.

Lemma parse_message_ranges (msg : bytes) (t i v : Z) :
  _parse_message msg = Some (t, i, v) ->
  0 <= t <= 3 /\ 0 <= i < 2 ^ 14 /\ v = Z.shiftl (Z.land i 0xFFF) 4.
Proof.
  intros H.
  destruct (parse_message_fields msg t i v H)
    as (b0 & b1 & b2 & b3 & _ & _ & -> & -> & ->).
  destruct (decoded_fields b1 b2) as (_ & _ & _ & Hd & Ht & Hi & _).
  pose proof (byte_val_range b1). pose proof (byte_val_range b2).
  repeat split; try assumption.
  - apply Z.land_nonneg. right. lia.
  - apply Z.lor_nonneg. split; [apply Z.shiftl_nonneg, Z.land_nonneg|]; lia.
Qed.

(** X3.  What the decoder returns is a 2-bit kind, a 14-bit identifier, and a
    value that repeats the identifier's low twelve bits four places up: a
    frame carries nothing in its value that its identifier does not. *)
Theorem decoded_value_follows_identifier (msg : bytes) (t i v : Z) :
  _parse_message msg = Some (t, i, v) ->
  0 <= t <= 3 /\ 0 <= i < 2 ^ 14 /\ v = Z.shiftl (Z.land i 0xFFF) 4.
Proof. apply parse_message_ranges. Qed.

Lemma decoded_value_follows_identifier_witness :
  0 <= 1 <= 3 /\ 0 <= 281 < 2 ^ 14 /\ 4496 = Z.shiftl (Z.land 281 0xFFF) 4.
Proof.
  apply (decoded_value_follows_identifier
           [Byte.x00; Byte.x41; Byte.x19; Byte.x5a] 1 281 4496).
  reflexivity.
Defined.

Lemma checksum_sum_inj (a a' b : Z) :
  0 <= a < 256 -> 0 <= a' < 256 ->
  Z.land (a + b) 0xFF = Z.land (a' + b) 0xFF -> a = a'.
Proof.
  intros Ha Ha'. change 0xFF with (Z.ones 8). rewrite !Z.land_ones by lia.
  change (2 ^ 8) with 256. intros E.
  pose proof (Z.div_mod (a + b) 256 ltac:(lia)) as D.
  pose proof (Z.div_mod (a' + b) 256 ltac:(lia)) as D'.
  rewrite E in D. lia.
Qed.

(** X4.  An accepted frame stops being accepted when any one of its bytes 1, 2
    or 3 is replaced by a different byte; byte 0 is never looked at, and
    the frame with bytes 1 and 2 exchanged is accepted as well. *)
Theorem single_byte_corruption (b0 b1 b2 b3 c : byte) (fields : Z * Z * Z) :
  _parse_message [b0; b1; b2; b3] = Some fields ->
  _parse_message [c; b1; b2; b3] = Some fields
  /\ (c <> b1 -> _parse_message [b0; c; b2; b3] = None)
  /\ (c <> b2 -> _parse_message [b0; b1; c; b3] = None)
  /\ (c <> b3 -> _parse_message [b0; b1; b2; c] = None)
  /\ (exists fields', _parse_message [b0; b2; b1; b3] = Some fields').
Proof.
  rewrite !parse_message_frame.
  rewrite (Z.add_comm (byte_val b2) (byte_val b1)).
  destruct (Z.eqb_spec (byte_val b3) (Z.land (byte_val b1 + byte_val b2) 0xFF))
    as [C|C]; [|discriminate].
  intros H.
  pose proof (byte_val_range b1). pose proof (byte_val_range b2).
  pose proof (byte_val_range c).
  split; [exact H|].
  split; [|split; [|split; [|eauto]]]; intros N.
  - destruct (Z.eqb_spec (byte_val b3) (Z.land (byte_val c + byte_val b2) 0xFF))
      as [C'|C']; [|reflexivity].
    exfalso. apply N, byte_val_inj.
    apply (checksum_sum_inj _ _ (byte_val b2)); [lia | lia | congruence].
  - destruct (Z.eqb_spec (byte_val b3) (Z.land (byte_val b1 + byte_val c) 0xFF))
      as [C'|C']; [|reflexivity].
    exfalso. apply N, byte_val_inj.
    apply (checksum_sum_inj _ _ (byte_val b1)); [lia | lia |].
    rewrite (Z.add_comm (byte_val c)), (Z.add_comm (byte_val b2)). congruence.
  - destruct (Z.eqb_spec (byte_val c) (Z.land (byte_val b1 + byte_val b2) 0xFF))
      as [C'|C']; [|reflexivity].
    exfalso. apply N, byte_val_inj. congruence.
Qed.

Lemma single_byte_corruption_witness :
  _parse_message [Byte.xff; Byte.x41; Byte.x19; Byte.x5a] = Some (1, 281, 4496)
  /\ _parse_message [Byte.x00; Byte.x41; Byte.x19; Byte.x5b] = None.
Proof.
  destruct (single_byte_corruption Byte.x00 Byte.x41 Byte.x19 Byte.x5a Byte.xff
                                   (1, 281, 4496) eq_refl) as (H0 & _).
  destruct (single_byte_corruption Byte.x00 Byte.x41 Byte.x19 Byte.x5a Byte.x5b
                                   (1, 281, 4496) eq_refl)
    as (_ & _ & _ & H3 & _).
  split; [exact H0 | apply H3; discriminate].
Defined.

(** A reply is taken for a status only when its identifier is 0, and then
    its value is 0 too. *)
Lemma status_flags_off (response : bytes) (st : Status) :
  status_of_response response = Some st ->
  st = mkStatus false false false false false false.
Proof.
  unfold status_of_response.
  destruct response as [|b tl]; [discriminate|].
  destruct (_parse_message (b :: tl)) as [[[t i] v]|] eqn:E; [|discriminate].
  destruct (Z.eqb_spec i STATUS) as [I|I]; [|discriminate].
  destruct (parse_message_ranges _ _ _ _ E) as (_ & _ & V).
  unfold STATUS in I. subst i. cbn in V. subst v.
  intros H. injection H as <-. reflexivity.
Qed.

(** X5.  Whatever reply arrives, a temperature that [get_boiler_temperature]
    makes of it is 2.5: a reply is taken for a temperature only when its
    identifier is 25, and then its value is [25 << 4]. *)
Theorem boiler_temperature_constant (response : bytes) (temp : Q) :
  boiler_temperature_of_response response = Some temp -> temp = 2.5%Q.
Proof.
  unfold boiler_temperature_of_response.
  destruct response as [|b tl]; [discriminate|].
  destruct (_parse_message (b :: tl)) as [[[t i] v]|] eqn:E; [|discriminate].
  destruct (Z.eqb_spec i TBOILER) as [I|I]; [|discriminate].
  destruct (parse_message_ranges _ _ _ _ E) as (_ & _ & V).
  unfold TBOILER in I. subst i. cbn in V. subst v.
  intros H. injection H as <-. reflexivity.
Qed.

Lemma boiler_temperature_constant_witness :
  boiler_temperature_of_response [Byte.x00; Byte.x00; Byte.x19; Byte.x19]
  = Some 2.5%Q.
Proof.
  destruct (boiler_temperature_of_response
              [Byte.x00; Byte.x00; Byte.x19; Byte.x19]) as [temp|] eqn:E;
    [|discriminate E].
  now rewrite (boiler_temperature_constant _ temp E).
Defined.

End CodecMore.

(** ** More on the boiler link *)

Section LinkMore.

Import OpenTherm Samples.

Lemma set_control_temperature_raises
    (target_temp current_temp : Q) (self : OpenThermController) (s : Serial) :
  connected self = true ->
  serial (protocol self) = Some s -> is_open s = true ->
  set_control_temperature target_temp current_temp self
  = (self, Raise ValueError).
Proof.
  intros Hc Hs Ho. unfold set_control_temperature.
  rewrite Hc. cbn [negb].
  rewrite (set_target_temperature_open target_temp (protocol self) s Hs Ho).
  destruct self as [p c]. cbn in *. now subst c.
Qed.

(** X6.  The status request is the one request that reaches the line.  On an
    open port [get_status] raises nothing, writes the single frame
    [00 00 00 00], takes at most four bytes of reply and leaves the port
    open; a status it returns has all six flags off, whatever the reply. *)
Theorem get_status_exchange (self : OpenThermProtocol) (s : Serial) :
  serial self = Some s -> is_open s = true ->
  exists status s',
    get_status self = (set_serial self s', Ok status)
    /\ tx s' = tx s ++ [[Byte.x00; Byte.x00; Byte.x00; Byte.x00]]
    /\ rx s' = skipn 4 (rx s) /\ is_open s' = true
    /\ status = status_of_response (firstn 4 (rx s))
    /\ (forall st, status = Some st ->
                   st = mkStatus false false false false false false).
Proof.
  intros Hs Ho. unfold get_status. rewrite Hs, Ho. cbn [negb].
  change (_create_message READ_DATA STATUS 0)
    with (Ok [Byte.x00; Byte.x00; Byte.x00; Byte.x00] : result bytes).
  unfold exchange, serial_read, serial_write. cbn [tx rx is_open].
  eexists _, _. split; [reflexivity|]. cbn [tx rx is_open].
  repeat split; try assumption.
  intros st E. exact (status_flags_off _ st E).
Qed.

Lemma get_status_exchange_witness :
  exists status s',
    get_status (protocol connected_with_reply)
    = (set_serial (protocol connected_with_reply) s', Ok status)
    /\ tx s' = [[Byte.x00; Byte.x00; Byte.x00; Byte.x00]]
    /\ rx s' = [] /\ is_open s' = true
    /\ status = Some (mkStatus false false false false false false)
    /\ (forall st, status = Some st ->
                   st = mkStatus false false false false false false).
Proof.
  exact (get_status_exchange
           (protocol connected_with_reply)
           (mkSerial true [] [Byte.x00; Byte.x00; Byte.x00; Byte.x00])
           eq_refl eq_refl).
Defined.

(** X7.  [get_boiler_status] returns only on a controller that is not connected,
    and then returns [None] and touches nothing: on a connected controller
    the temperature request that comes first always raises. *)
Theorem get_boiler_status_returns_only_disconnected
    (self self' : OpenThermController) (r : option (Status * option Q)) :
  get_boiler_status self = (self', Ok r) ->
  connected self = false /\ self' = self /\ r = None.
Proof.
  unfold get_boiler_status. destruct (connected self) eqn:C; cbn [negb].
  - destruct (get_boiler_temperature_raises (protocol self)) as (e & E).
    rewrite E. discriminate.
  - intros H. injection H as <- <-. auto.
Qed.

Lemma get_boiler_status_returns_only_disconnected_witness :
  connected (controller_init "/dev/ttyUSB0" 9600) = false.
Proof.
  apply (get_boiler_status_returns_only_disconnected
           (controller_init "/dev/ttyUSB0" 9600)
           (controller_init "/dev/ttyUSB0" 9600) None).
  reflexivity.
Defined.

(** X8.  [stop] leaves the controller disconnected and is idempotent.  If the
    controller was connected, its port, if any, is closed afterwards with
    its log of writes and its pending bytes as they were.  After [stop],
    [set_control_temperature] returns [False] and touches nothing. *)
Theorem stop_disconnects (self : OpenThermController) :
  connected (stop self) = false
  /\ stop (stop self) = stop self
  /\ (connected self = true ->
      forall s', serial (protocol (stop self)) = Some s' ->
                 is_open s' = false
                 /\ exists s, serial (protocol self) = Some s
                              /\ tx s' = tx s /\ rx s' = rx s)
  /\ (forall target_temp current_temp,
         set_control_temperature target_temp current_temp (stop self)
         = (stop self, Ok false)).
Proof.
  assert (D : connected (stop self) = false).
  { unfold stop. destruct (connected self) eqn:C; [reflexivity | exact C]. }
  split; [exact D|]. split; [|split].
  - unfold stop at 1. now rewrite D.
  - intros C s'. unfold stop. rewrite C. cbn [protocol]. unfold disconnect.
    destruct (serial (protocol self)) as [s|] eqn:Es.
    + destruct (is_open s) eqn:Eo.
      * cbn. intros H. injection H as <-. cbn. eauto.
      * rewrite Es. intros H. injection H as <-. eauto.
    + rewrite Es. discriminate.
  - intros target_temp current_temp. unfold set_control_temperature.
    now rewrite D.
Qed.

Lemma stop_disconnects_witness :
  is_open (mkSerial false [] [Byte.x00; Byte.x00; Byte.x00; Byte.x00]) = false.
Proof.
  destruct (stop_disconnects connected_with_reply) as (_ & _ & H & _).
  apply (H eq_refl
           (mkSerial false [] [Byte.x00; Byte.x00; Byte.x00; Byte.x00])
           eq_refl).
Defined.

Lemma link_step_inv (o : link_op) (self : OpenThermController) :
  link_inv self -> link_inv (link_step o self).
Proof.
  intros (Htx & Hopen). destruct o as [dev| |target current|]; cbn [link_step].
  - unfold start, connect. destruct dev as [incoming|e]; cbn.
    + split.
      * intros s H. injection H as <-. reflexivity.
      * intros _. eexists. split; reflexivity.
    + split; [exact Htx | discriminate].
  - unfold stop. destruct (connected self) eqn:C.
    + split; [|discriminate]. cbn [protocol]. unfold disconnect.
      destruct (serial (protocol self)) as [s|] eqn:Es.
      * destruct (is_open s); cbn.
        -- intros s' H. injection H as <-. cbn. now apply Htx.
        -- rewrite Es. intros s' H. injection H as <-. now apply Htx.
      * rewrite Es. discriminate.
    + split; [exact Htx | rewrite C; discriminate].
  - unfold set_control_temperature. destruct (connected self) eqn:C; cbn [negb].
    + destruct (Hopen eq_refl) as (s & Hs & Ho).
      rewrite (set_target_temperature_open target (protocol self) s Hs Ho).
      cbn. split; [exact Htx | intros _; eauto].
    + cbn. split; [exact Htx|]. rewrite C. discriminate.
  - unfold get_boiler_status. destruct (connected self) eqn:C; cbn [negb].
    + destruct (get_boiler_temperature_raises (protocol self)) as (e & E).
      rewrite E. cbn. split; [exact Htx | intros _; now apply Hopen].
    + cbn. split; [exact Htx|]. rewrite C. discriminate.
Qed.

(** X9.  However [start], [stop], [set_control_temperature] and
    [get_boiler_status] are interleaved on a new controller, nothing is
    ever written to the serial line, and [set_control_temperature] either
    returns [False] (not connected) or raises [ValueError] (connected); it
    never raises [ConnectionError] and never returns [True]. *)
Theorem controller_never_writes
    (serial_port : string) (baudrate : Z) (ops : list link_op)
    (target_temp current_temp : Q) :
  let self := link_run ops (controller_init serial_port baudrate) in
  (forall s, serial (protocol self) = Some s -> tx s = [])
  /\ set_control_temperature target_temp current_temp self
     = (self, if connected self then Raise ValueError else Ok false).
Proof.
  cbn zeta.
  assert (I : link_inv (link_run ops (controller_init serial_port baudrate))).
  { unfold link_run.
    assert (I0 : link_inv (controller_init serial_port baudrate))
      by (split; cbn; discriminate).
    revert I0. generalize (controller_init serial_port baudrate).
    induction ops as [|o ops IH]; intros c I0; [exact I0|].
    cbn [fold_left]. apply IH. now apply link_step_inv. }
  destruct I as (Htx & Hopen). split; [exact Htx|].
  destruct (connected _) eqn:C.
  - destruct (Hopen eq_refl) as (s & Hs & Ho).
    exact (set_control_temperature_raises _ _ _ s C Hs Ho).
  - unfold set_control_temperature. now rewrite C.
Qed.

End LinkMore.

(** ** More on the PID controller *)

Section ControllerMore.

Import PID Samples.
Local Open Scope Q_scope.


Lemma Qle_bool_false (a b : Q) : b < a -> Qle_bool a b = false.
Proof.
  intros H. destruct (Qle_bool a b) eqn:E; [|reflexivity].
  apply Qle_bool_iff in E. exfalso. apply (Qlt_not_le _ _ H E).
Qed.




(** Clamping is monotone, and clamping twice is clamping once. *)
Lemma clamp_monotone (lo hi x y : Q) :
  x <= y -> py_max lo (py_min hi x) <= py_max lo (py_min hi y).
Proof.
  intros Hxy. unfold py_max, py_min.
  destruct (Qltb x hi) eqn:E1; destruct (Qltb y hi) eqn:E2;
    try apply Qltb_lt in E1; try apply Qltb_lt in E2;
    try apply Qltb_ge in E1; try apply Qltb_ge in E2;
    repeat match goal with
           | |- context [Qltb ?a ?b] =>
               let E := fresh "E" in
               destruct (Qltb a b) eqn:E;
               [apply Qltb_lt in E | apply Qltb_ge in E]
           end; lra.
Qed.

Lemma clamp_idem (lo hi x : Q) :
  lo <= hi ->
  py_max lo (py_min hi (py_max lo (py_min hi x))) = py_max lo (py_min hi x).
Proof.
  intros Hlh. unfold py_max, py_min.
  destruct (Qltb x hi) eqn:E1.
  - destruct (Qltb lo x) eqn:E2.
    + now rewrite E1, E2.
    + apply Qltb_lt in E1. apply Qltb_ge in E2.
      destruct (Qltb lo hi) eqn:E3.
      * now rewrite (proj2 (Qltb_ge lo lo)) by lra.
      * apply Qltb_ge in E3. now rewrite (proj2 (Qltb_ge lo hi)) by lra.
  - destruct (Qltb lo hi) eqn:E3.
    + rewrite (proj2 (Qltb_ge hi hi)) by lra. now rewrite E3.
    + apply Qltb_ge in E3. apply Qltb_ge in E1.
      destruct (Qltb lo hi) eqn:E4.
      * apply Qltb_lt in E4. lra.
      * now rewrite E4.
Qed.

End ControllerMore.

(** ** More on the room manager *)

Section RoomsMore.

Import Rooms Samples.
Local Open Scope Q_scope.

(** X11.  [update_room_temperature] writes the reading into the first room that
    bears the name and into no other; when no room bears the name the
    manager is left as it was. *)
Theorem update_room_temperature_first_match
    (room_name : string) (temperature : Q) (rooms : list Room) :
  ((forall r, In r rooms -> name r <> room_name) ->
   update_room_temperature room_name temperature rooms = rooms)
  /\ (forall before r after,
         rooms = before ++ r :: after ->
         name r = room_name ->
         (forall r', In r' before -> name r' <> room_name) ->
         update_room_temperature room_name temperature rooms
         = before ++ set_current_temp r temperature :: after).
Proof.
  split.
  - induction rooms as [|r tl IH]; intros H; [reflexivity|].
    cbn [update_room_temperature].
    destruct (String.eqb_spec (name r) room_name) as [E|E].
    + exfalso. apply (H r); [now left | exact E].
    + f_equal. apply IH. intros r' Hr'. apply H. now right.
  - intros before. revert rooms.
    induction before as [|b before' IH]; intros rooms r after -> Hn Hb.
    + cbn. now rewrite (proj2 (String.eqb_eq _ _) Hn).
    + cbn [app update_room_temperature].
      destruct (String.eqb_spec (name b) room_name) as [E|E].
      * exfalso. apply (Hb b); [now left | exact E].
      * f_equal. apply (IH _ r after eq_refl Hn).
        intros r' Hr'. apply Hb. now right.
Qed.

Lemma update_room_temperature_first_match_witness :
  update_room_temperature "Ghost" 17 [living; bedroom] = [living; bedroom]
  /\ update_room_temperature "Living" 17 [bedroom; living; living]
     = [bedroom; set_current_temp living 17; living].
Proof.
  destruct (update_room_temperature_first_match "Ghost" 17 [living; bedroom])
    as (H1 & _).
  destruct (update_room_temperature_first_match
              "Living" 17 [bedroom; living; living]) as (_ & H2).
  split.
  - apply H1. intros r [<-|[<-|[]]]; discriminate.
  - apply (H2 [bedroom] living [living] eq_refl eq_refl).
    intros r [<-|[]]. discriminate.
Defined.

Lemma update_room_temperature_names
    (room_name : string) (temperature : Q) (rooms : list Room) :
  map name (update_room_temperature room_name temperature rooms)
  = map name rooms.
Proof.
  induction rooms as [|r tl IH]; [reflexivity|].
  cbn [update_room_temperature].
  destruct (String.eqb (name r) room_name); cbn; [reflexivity | now rewrite IH].
Qed.

(** With distinct names the lookup by name reaches every room. *)
Lemma update_room_temperature_nodup
    (room_name : string) (temperature : Q) (rooms : list Room) :
  NoDup (map name rooms) ->
  update_room_temperature room_name temperature rooms
  = map (fun r => if String.eqb (name r) room_name
                  then set_current_temp r temperature else r) rooms.
Proof.
  induction rooms as [|r tl IH]; intros N; [reflexivity|].
  inversion N as [|? ? Hnotin Ntl]; subst.
  cbn [update_room_temperature map].
  destruct (String.eqb_spec (name r) room_name) as [E|E].
  - f_equal. rewrite <- (map_id tl) at 1. apply map_ext_in.
    intros r' Hr'. destruct (String.eqb_spec (name r') room_name) as [E'|E'];
      [|reflexivity].
    exfalso. apply Hnotin. rewrite E, <- E'. now apply in_map.
  - f_equal. now apply IH.
Qed.

Lemma reading_for_absent (done : list (Room * option Q)) (room_name : string) :
  ~ In room_name (map (fun task => name (fst task)) done) ->
  HA.reading_for done room_name = None.
Proof.
  induction done as [|[room temp] tl IH]; intros H; [reflexivity|].
  cbn [HA.reading_for].
  destruct (String.eqb_spec (name room) room_name) as [E|E].
  - exfalso. apply H. now left.
  - apply IH. intros Hin. apply H. now right.
Qed.

(** X12.  When the rooms have distinct names and each task is for a different
    room name, gathering the temperature tasks leaves every room with the
    reading of the task made for its name, and untouched when that task
    brought no reading or does not exist; the rooms that get a reading are
    those a task of [done] names, in whatever order the tasks finish. *)
Theorem readings_reach_their_rooms
    (done : list (Room * option Q)) (rooms : list Room) :
  NoDup (map name rooms) ->
  NoDup (map (fun task => name (fst task)) done) ->
  HA.update_room_temperatures done rooms
  = map (fun r => match HA.reading_for done (name r) with
                  | Some t => set_current_temp r t
                  | None => r
                  end) rooms
  /\ (forall room_name t,
         HA.reading_for done room_name = Some t
         <-> exists room, In (room, Some t) done /\ name room = room_name).
Proof.
  intros Nr Nd. split.
  - revert rooms Nr. induction done as [|[room0 temp0] tl IH]; intros rooms Nr.
    + cbn. now rewrite map_id.
    + inversion Nd as [|? ? Hnotin Ntl]; subst. cbn [fst] in Hnotin.
      unfold HA.update_room_temperatures. cbn [fold_left fst snd].
      fold (HA.update_room_temperatures tl
              (HA._update_single_room temp0 room0 rooms)).
      rewrite (IH Ntl).
      2:{ destruct temp0 as [t0|]; cbn [HA._update_single_room];
            [now rewrite update_room_temperature_names | exact Nr]. }
      destruct temp0 as [t0|]; cbn [HA._update_single_room].
      * rewrite (update_room_temperature_nodup _ _ _ Nr), map_map.
        apply map_ext. intros r. cbn [HA.reading_for].
        destruct (String.eqb_spec (name r) (name room0)) as [E|E].
        -- rewrite (proj2 (String.eqb_eq _ _) (eq_sym E)).
           cbn [name set_current_temp]. rewrite E.
           now rewrite (reading_for_absent tl (name room0) Hnotin).
        -- rewrite (proj2 (String.eqb_neq _ _) (fun H => E (eq_sym H))).
           reflexivity.
      * apply map_ext. intros r. cbn [HA.reading_for].
        destruct (String.eqb_spec (name room0) (name r)) as [E|E];
          [|reflexivity].
        rewrite <- E.
        now rewrite (reading_for_absent tl (name room0) Hnotin).
  - clear rooms Nr. induction done as [|[room0 temp0] tl IH];
      intros room_name t.
    + cbn. split; [discriminate | intros (room & [] & _)].
    + inversion Nd as [|? ? Hnotin Ntl]; subst. cbn [fst] in Hnotin.
      cbn [HA.reading_for].
      destruct (String.eqb_spec (name room0) room_name) as [E|E].
      * split.
        -- intros ->. exists room0. split; [now left | exact E].
        -- intros (room & [H|H] & Hn).
           ++ now injection H as _ ->.
           ++ exfalso. apply Hnotin. rewrite E, <- Hn.
              apply (in_map (fun task => name (fst task)) tl (room, Some t) H).
      * rewrite (IH Ntl). split.
        -- intros (room & H & Hn). exists room. split; [now right | exact Hn].
        -- intros (room & [H|H] & Hn).
           ++ injection H as -> _. contradiction.
           ++ exists room. auto.
Qed.

Lemma readings_reach_their_rooms_witness :
  HA.update_room_temperatures [(attic, Some 16); (living, None)]
                              [living; attic]
  = [living; set_current_temp attic 16].
Proof.
  destruct (readings_reach_their_rooms
              [(attic, Some 16); (living, None)] [living; attic]) as (H & _).
  - repeat constructor; cbn; intuition discriminate.
  - repeat constructor; cbn; intuition discriminate.
  - rewrite H. reflexivity.
Defined.

(** X13.  The pair [get_control_temperatures] hands to the boiler control always
    has its current temperature strictly below its target; it is the
    (target, current) of one room of the manager, and its gap
    [target - current] is at least the difference of every room that needs
    heating. *)
Theorem control_pair_below_target
    (rooms : list Room) (target current : Q) :
  get_control_temperatures rooms = Some (target, current) ->
  current < target
  /\ exists room,
       In room rooms
       /\ target_temp room = target /\ current_temp room = Some current
       /\ forall r, In r rooms -> needs_heating r = true ->
                    get_temperature_difference r <= target - current.
Proof.
  unfold get_control_temperatures.
  destruct (get_room_with_highest_difference rooms) as [room|] eqn:S;
    [|discriminate].
  destruct (current_temp room) as [c|] eqn:C; [|discriminate].
  intros H. injection H as <- <-.
  destruct (selection_some rooms room S)
    as (before & after & -> & Hheat & Hb & Ha).
  apply needs_heating_iff in Hheat. destruct Hheat as (c' & C' & Hlt).
  rewrite C in C'. injection C' as <-.
  split; [exact Hlt|]. exists room.
  split; [apply in_or_app; right; now left|].
  split; [reflexivity|]. split; [exact C|].
  assert (D : get_temperature_difference room == target_temp room - c).
  { unfold get_temperature_difference. rewrite C. apply Qabs_pos. lra. }
  intros r Hin Hr. rewrite <- D.
  apply in_app_or in Hin. destruct Hin as [Hin|[<-|Hin]].
  - apply Qlt_le_weak. now apply Hb.
  - apply Qle_refl.
  - now apply Ha.
Qed.

Lemma control_pair_below_target_witness :
  19 < 21
  /\ exists room,
       In room [bedroom; living]
       /\ target_temp room = 21 /\ current_temp room = Some 19
       /\ forall r, In r [bedroom; living] -> needs_heating r = true ->
                    get_temperature_difference r <= 21 - 19.
Proof.
  apply (control_pair_below_target [bedroom; living] 21 19). reflexivity.
Defined.

Lemma filter_idem {A : Type} (f : A -> bool) (l : list A) :
  filter f (filter f l) = filter f l.
Proof.
  induction l as [|x tl IH]; [reflexivity|].
  cbn [filter]. destruct (f x) eqn:E; [|exact IH].
  cbn [filter]. now rewrite E, IH.
Qed.

(** X14.  Rooms that do not need heating (at or above target, or without a
    reading) have no say in the selection: removing them from the manager
    leaves the selected room the same. *)
Theorem selection_ignores_satisfied_rooms (rooms : list Room) :
  get_room_with_highest_difference (filter needs_heating rooms)
  = get_room_with_highest_difference rooms.
Proof.
  unfold get_room_with_highest_difference.
  rewrite !(filter_ext _ needs_heating heat_filter), filter_idem.
  destruct rooms as [|r tl]; [reflexivity|].
  destruct (filter needs_heating (r :: tl)); reflexivity.
Qed.

(** X15.  A manager just loaded from its configuration lists the configured rooms
    in order, holds no reading, selects no room and hands no pair to the
    boiler control; every valve starts closed. *)
Theorem loaded_manager_is_idle (rooms_config : list RoomConfig) :
  let rooms := _load_rooms rooms_config in
  map name rooms = map cfg_name rooms_config
  /\ map target_temp rooms = map cfg_target_temp rooms_config
  /\ Forall (fun room => current_temp room = None) rooms
  /\ get_room_with_highest_difference rooms = None
  /\ get_control_temperatures rooms = None
  /\ Forall (fun room =>
               Forall (fun valve => current_position valve = 0)
                      (hrv_valves room)) rooms.
Proof.
  cbn zeta. unfold _load_rooms.
  assert (N : Forall (fun room => current_temp room = None)
                     (map load_room rooms_config)).
  { apply Forall_forall. intros room H. apply in_map_iff in H.
    now destruct H as (rc & <- & _). }
  assert (S : get_room_with_highest_difference (map load_room rooms_config)
              = None).
  { apply selection_none. intros r Hr. rewrite Forall_forall in N.
    unfold needs_heating. now rewrite (N r Hr). }
  split; [rewrite map_map; reflexivity|].
  split; [rewrite map_map; reflexivity|].
  split; [exact N|]. split; [exact S|].
  split; [unfold get_control_temperatures; now rewrite S|].
  apply Forall_forall. intros room H. apply in_map_iff in H.
  destruct H as (rc & <- & _). cbn [load_room hrv_valves].
  apply Forall_forall. intros valve H. apply in_map_iff in H.
  now destruct H as (vc & <- & _).
Qed.

End RoomsMore.

(** ** More on the valve calculation *)

Section ValvesMore.

Import Rooms Samples.
Local Open Scope Q_scope.

Lemma valve_step_static (now error : Q) (valve : HRVValve) :
  valve_static (fst (valve_step now error valve)) = valve_static valve.
Proof.
  unfold valve_step.
  pose proof (update_frame now (- error)
                (PID.set_setpoint 0 (pid_controller valve))) as F.
  cbn zeta in F. destruct F as (Fp & Fi & Fd & _ & Fl & _).
  destruct (PID.update now (- error) _) as [pid' [position|e]];
    cbn [fst] in *; unfold valve_static; cbn;
    now rewrite Fp, Fi, Fd, Fl.
Qed.

Lemma valves_loop_static (clock : nat -> Q) (error : Q)
    (valves : list HRVValve) :
  forall tick,
    map valve_static (snd (fst (valves_loop clock tick error valves)))
    = map valve_static valves.
Proof.
  induction valves as [|valve tl IH]; intros tick; [reflexivity|].
  cbn [valves_loop].
  pose proof (valve_step_static (clock tick) error valve) as Hs.
  destruct (valve_step (clock tick) error valve) as [valve' [u|e]].
  - specialize (IH (S tick)).
    destruct (valves_loop clock (S tick) error tl) as [[tick' tl'] r].
    cbn [fst snd map] in *. now rewrite Hs, IH.
  - cbn [fst snd map] in *. now rewrite Hs.
Qed.

Lemma calculate_frame
    (clock : nat -> Q) (tick : nat) (room : Room) :
  let tick' := fst (fst (calculate_hrv_positions clock tick room)) in
  let room' := snd (fst (calculate_hrv_positions clock tick room)) in
  name room' = name room
  /\ target_temp room' = target_temp room
  /\ current_temp room' = current_temp room
  /\ current_temp_sensor room' = current_temp_sensor room
  /\ hrv_entity room' = hrv_entity room
  /\ map valve_static (hrv_valves room') = map valve_static (hrv_valves room)
  /\ (Forall valve_wf (hrv_valves room) ->
      snd (calculate_hrv_positions clock tick room) = Ok tt
      /\ tick' = (tick + match current_temp room with
                         | Some _ => List.length (hrv_valves room)
                         | None => 0
                         end)%nat).
Proof.
  unfold calculate_hrv_positions.
  destruct (current_temp room) as [current|] eqn:C.
  - pose proof (valves_loop_static clock (target_temp room - current)
                                   (hrv_valves room) tick) as Hs.
    pose proof (valves_loop_returns clock (target_temp room - current)
                                    (hrv_valves room) tick) as R.
    destruct (valves_loop clock tick _ (hrv_valves room)) as [[tick' valves] r].
    cbn [fst snd] in *. cbn [name target_temp current_temp current_temp_sensor
                             hrv_entity hrv_valves set_hrv_valves].
    repeat split; try assumption.
    + destruct (R H) as (valves' & E & _). now injection E as _ _ ->.
    + destruct (R H) as (valves' & E & _). now injection E as -> _ _.
  - cbn [fst snd]. rewrite C. repeat split. now rewrite Nat.add_0_r.
Qed.

(** X16.  [calculate_hrv_positions] changes valve positions and controller memory
    only: the room's name, target, reading, sensor and device, and every
    valve's names, gains and controller bounds stay as configured, even when
    the loop is cut short.  When every controller is well formed the loop
    raises nothing and reads the clock once per valve of a measured room. *)
Theorem calculate_keeps_configuration
    (clock : nat -> Q) (tick : nat) (room : Room) :
  let tick' := fst (fst (calculate_hrv_positions clock tick room)) in
  let room' := snd (fst (calculate_hrv_positions clock tick room)) in
  name room' = name room
  /\ target_temp room' = target_temp room
  /\ current_temp room' = current_temp room
  /\ current_temp_sensor room' = current_temp_sensor room
  /\ hrv_entity room' = hrv_entity room
  /\ map valve_static (hrv_valves room') = map valve_static (hrv_valves room)
  /\ (Forall valve_wf (hrv_valves room) ->
      snd (calculate_hrv_positions clock tick room) = Ok tt
      /\ tick' = (tick + match current_temp room with
                         | Some _ => List.length (hrv_valves room)
                         | None => 0
                         end)%nat).
Proof. apply calculate_frame. Qed.

Lemma calculate_keeps_configuration_witness :
  snd (calculate_hrv_positions seconds 0 living) = Ok tt
  /\ fst (fst (calculate_hrv_positions seconds 0 living)) = 1%nat.
Proof.
  destruct (calculate_keeps_configuration seconds 0 living)
    as (_ & _ & _ & _ & _ & _ & H).
  apply H. repeat constructor. apply wf_init.
Defined.






(** X18.  Because [calculate_hrv_positions] sets the setpoint, and with it zeroes
    the integral, before every [update], a later calculation (clock reading
    after the remembered one) uses no integral from earlier passes: with
    [e] the room's error and [dt] the time since the last calculation the
    valve goes to [clamp(kp*e + ki*(e*dt) + kd*((e - last_e)/dt))] and the
    controller is left holding the integral [e*dt], whatever integral and
    setpoint it held before. *)
Theorem valve_step_forgets_integral
    (now error last_time last_error : Q) (valve : HRVValve) :
  let pid := pid_controller valve in
  PID._last_time pid = Some last_time ->
  PID._last_error pid = Some last_error ->
  PID.output_limits pid = (0, 100) ->
  last_time < now ->
  let dt := now - last_time in
  exists valve',
    valve_step now error valve = (valve', Ok tt)
    /\ current_position valve'
       == py_max 0 (py_min 100
            (PID.kp pid * error + PID.ki pid * (error * dt)
             + PID.kd pid * ((error - last_error) / dt)))
    /\ PID._integral (pid_controller valve') == error * dt
    /\ PID._last_time (pid_controller valve') = Some now.
Proof.
  intros pid Et Ee El Hlt dt.
  unfold valve_step, PID.update, PID.set_setpoint.
  cbn [PID._last_time PID._last_error PID.kp PID.ki PID.kd PID.setpoint
       PID.output_limits PID._integral].
  fold pid. rewrite Et, Ee.
  rewrite Qle_bool_false by lra.
  eexists. split; [reflexivity|].
  cbn [current_position pid_controller PID._integral PID._last_time].
  unfold PID._clamp_output. cbn [PID.output_limits]. rewrite El. cbn [fst snd].
  rewrite clamp_idem by discriminate.
  split; [|split; [|reflexivity]].
  - apply clamp_proper. fold dt. unfold Qdiv. ring.
  - fold dt. ring.
Qed.

Lemma valve_step_forgets_integral_witness :
  exists valve',
    valve_step 5 2 seasoned_valve = (valve', Ok tt)
    /\ current_position valve'
       == py_max 0 (py_min 100 (1 * 2 + 0.5 * (2 * (5 - 1))
                                + 0.25 * ((2 - 3) / (5 - 1))))
    /\ PID._integral (pid_controller valve') == 2 * (5 - 1)
    /\ PID._last_time (pid_controller valve') = Some 5.
Proof.
  apply (valve_step_forgets_integral 5 2 1 3 seasoned_valve);
    reflexivity.
Defined.

End ValvesMore.

(** ** What is asked of Home Assistant, and one pass of the loop *)

Section PassMore.

Import Rooms Samples.
Local Open Scope Q_scope.

Lemma valve_requests_range (rooms : list Room) :
  positions_in_range rooms ->
  forall req, In req (HA.update_valve_positions rooms) ->
  exists entity position,
    req = HA.SetValvePosition entity position /\ 0 <= position <= 100.
Proof.
  unfold positions_in_range, HA.update_valve_positions.
  intros H req Hin. apply in_flat_map in Hin.
  destruct Hin as (room & Hroom & Hreq).
  apply in_map_iff in Hreq. destruct Hreq as (valve & <- & Hvalve).
  rewrite Forall_forall in H. specialize (H room Hroom).
  rewrite Forall_forall in H. specialize (H valve Hvalve).
  now exists (valve_entity valve), (current_position valve).
Qed.

(** X19.  Every call [update_valve_positions] makes asks for a position in
    [0, 100], on any manager whose stored positions are in range, hence on
    any manager reached from a loaded configuration by temperature updates
    and position calculations; there is one call per valve. *)
Theorem valve_requests_in_range :
  (forall rooms,
      positions_in_range rooms ->
      forall req, In req (HA.update_valve_positions rooms) ->
      exists entity position,
        req = HA.SetValvePosition entity position /\ 0 <= position <= 100)
  /\ (forall rooms_config clock ops tick req,
         In req (HA.update_valve_positions
                   (snd (run clock ops (tick, _load_rooms rooms_config)))) ->
         exists entity position,
           req = HA.SetValvePosition entity position /\ 0 <= position <= 100)
  /\ (forall rooms,
         List.length (HA.update_valve_positions rooms)
         = List.length (flat_map hrv_valves rooms)).
Proof.
  split; [exact valve_requests_range|]. split.
  - intros rooms_config clock ops tick. apply valve_requests_range.
    apply (run_in_range clock ops (tick, _load_rooms rooms_config)).
    apply load_rooms_in_range.
  - intros rooms. unfold HA.update_valve_positions.
    induction rooms as [|room tl IH]; [reflexivity|].
    cbn [flat_map]. now rewrite !length_app, length_map, IH.
Qed.

Lemma valve_requests_in_range_witness :
  exists entity position,
    HA.SetValvePosition "valve.living" 0 = HA.SetValvePosition entity position
    /\ 0 <= position <= 100.
Proof.
  apply (proj1 valve_requests_in_range [living; attic]).
  - unfold positions_in_range. repeat constructor; discriminate.
  - left. reflexivity.
Defined.


Lemma control_pair_exists (rooms : list Room) :
  (exists room, In room rooms /\ needs_heating room = true) ->
  exists target current, get_control_temperatures rooms = Some (target, current).
Proof.
  intros (room & Hin & Hheat). unfold get_control_temperatures.
  destruct (get_room_with_highest_difference rooms) as [r|] eqn:S.
  - destruct (selection_some rooms r S) as (_ & _ & _ & Hr & _).
    apply needs_heating_iff in Hr. destruct Hr as (c & -> & _). eauto.
  - rewrite (proj1 (selection_none rooms) S room Hin) in Hheat. discriminate.
Qed.

(** X21.  While the boiler link is connected with its port open, a pass of the
    loop in which some room needs heating ends in [_update_boiler_control]
    with [ValueError]: no call reaches Home Assistant (no thermostat
    setpoint, no valve position, no device mode), no valve position is
    recalculated, the clock is not read and the application is left exactly
    as it was. *)
Theorem connected_link_cuts_the_pass
    (clock : nat -> Q) (tick : nat) (self : Main.MultiRoomThermostat)
    (s : OpenTherm.Serial) :
  OpenTherm.connected (Main.opentherm self) = true ->
  OpenTherm.serial (OpenTherm.protocol (Main.opentherm self)) = Some s ->
  OpenTherm.is_open s = true ->
  (exists room, In room (Main.room_manager self) /\ needs_heating room = true) ->
  Main.control_pass clock tick self = (tick, self, [], Some ValueError).
Proof.
  intros Hc Hs Ho Hheat.
  destruct (control_pair_exists _ Hheat) as (target & current & E).
  unfold Main.control_pass, Main._update_boiler_control.
  rewrite E, Hc.
  rewrite (set_control_temperature_raises target current _ s Hc Hs Ho).
  now destruct self.
Qed.

Lemma connected_link_cuts_the_pass_witness :
  Main.control_pass seconds 0 linked_app = (0%nat, linked_app, [], Some ValueError).
Proof.
  apply (connected_link_cuts_the_pass
           seconds 0 linked_app
           (OpenTherm.mkSerial true []
              [Byte.x00; Byte.x00; Byte.x00; Byte.x00]));
    try reflexivity.
  exists living. split; [now left | reflexivity].
Defined.





End PassMore.
